(** * Jakestering: the edge-interrupt dispatch code of jakestering.c

    A shallow embedding of the interrupt part of jakestering.c
    (interrupt_handler, wait_for_interrupt, wait_for_interrupt_to_close,
    interrupt_init, jakestering_ISR) together with the static tables
    they share, and the properties of the specification stated over it.

    Modelling choices.
    - The static variables of the translation unit form one record,
      [state]; every C function is a computation in the monad [M]
      (state passing, with three ways of not returning).
    - The per-pin tables are lists of 32 entries.  An index outside
      0..31 is an access outside the array, which C leaves undefined:
      the computation ends in [Undefined].
    - Threads.  [live_threads] holds the dispatch threads that exist
      and have not been cancelled.  pthread_cancel is defined on the id
      of such a thread only; a cancelled thread that goes on running
      (it cancelled itself) ends at close, its next cancellation point:
      the computation ends in [Ended].  The functions that the program
      can call from any thread take the calling dispatch thread as
      [caller], [None] for any other thread.
    - What the kernel answers (open, ioctl, fcntl, pthread_create, poll,
      read) is input of the function that makes the call; what the
      process does to the outside is written to [trace], most recent
      event first, and reflected in [open_fds] and [live_threads].
    - A callback is an opaque identifier: running it adds [EvCall] to
      the trace.  The tables are static, so a callback reaches them
      only through the functions modelled here.
    - One [cycle] is what one iteration of the dispatch loop gets from
      poll and read.  A thread that polls without timeout when the
      kernel has nothing more to report ends in [Parked].
    - Calls that only wait or only change scheduling (sleep, delay,
      piHiPri, the mutex around the handshake) are left out; printf is
      kept as an event, without the arguments of the format.
    - The start-up handshake of jakestering_ISR is modelled at the
      point where it completes: the new thread has run the first two
      statements of interrupt_handler and nothing else.

    The file also embeds the helpers delay, delayMicro, digitalWrite and
    digitalWriteByte of jakestering.c and the text cursor of
    lcd128x64.c (pulseEnable, sendData, sendInstruction,
    lcdTextPosition, lcdPutChar, lcdPuts).  These are functions from
    their arguments to the list of register writes and sleeps they
    make; a shift or an addition that C leaves undefined, or a read
    past the end of rowsOffset, gives [None]. *)

From Stdlib Require Import ZArith Lia Bool.
From stdpp Require Import base list strings.

Open Scope Z_scope.

(** ** Data *)

(** A registered function pointer; NULL is [None] in the tables. *)
Definition callback := nat.

(** Modelled from the spec: jakestering.h is not among the sources; its
    constants FALLING_EDGE, RISING_EDGE and BOTH_EDGE are the three edge
    modes of the data model. *)
Inductive edge_mode := FALLING_EDGE | RISING_EDGE | BOTH_EDGE.

(** linux/gpio.h and fcntl.h *)
Definition GPIOHANDLE_REQUEST_INPUT : Z := 1.
Definition GPIOEVENT_REQUEST_RISING_EDGE : Z := 1.
Definition GPIOEVENT_REQUEST_FALLING_EDGE : Z := 2.
Definition GPIOEVENT_REQUEST_BOTH_EDGES : Z := 3.
Definition O_NONBLOCK : Z := 2048.

(** sizeof(struct gpioevent_data): a 64-bit timestamp and a 32-bit id,
    padded to the alignment of the timestamp. *)
Definition sizeof_event_data : Z := 16.

(** Number of entries of each per-pin table. *)
Definition NPINS : Z := 32.

(** Conversion of a value to a 32-bit int (event_data.id is unsigned). *)
Definition to_int (z : Z) : Z := (z + 2 ^ 31) mod 2 ^ 32 - 2 ^ 31.

Inductive event :=
| EvOpenChip (ret : Z)
| EvIoctl (chip line : Z) (handleflags eventflags : Z) (ret : Z)
| EvFcntl (fd flags ret : Z)
| EvSpawn (tid : Z)
| EvCancel (tid ret : Z)
| EvClose (fd : Z)
| EvPoll (fd ms : Z)
| EvRead (fd : Z)
| EvCall (cb : callback)
| EvPrintf (msg : string).

Record state := mkState {
  (* the static variables of jakestering.c *)
  pin_pass : Z;
  chip_FD : Z;
  pin_FDs : list Z;
  isr_functions : list (option callback);
  isr_threads : list Z;
  isr_modes : list (option edge_mode);
  isr_function_called : list Z;
  (* the process as the kernel sees it *)
  open_fds : list Z;
  live_threads : list (Z * Z);      (* thread id, the pin it captured *)
  trace : list event
}.

(** The tables as the initialisers leave them: [{-1}] and [{1}] give the
    first entry, the rest is zero. *)
Definition init : state :=
  {| pin_pass := -1;
     chip_FD := -1;
     pin_FDs := -1 :: replicate 31 0;
     isr_functions := replicate 32 None;
     isr_threads := replicate 32 0;
     isr_modes := replicate 32 None;
     isr_function_called := 1 :: replicate 31 0;
     open_fds := [];
     live_threads := [];
     trace := [] |}.

Definition wf (s : state) : Prop :=
  length (pin_FDs s) = 32%nat /\
  length (isr_functions s) = 32%nat /\
  length (isr_threads s) = 32%nat /\
  length (isr_modes s) = 32%nat /\
  length (isr_function_called s) = 32%nat.

(** Field updates. *)
Definition set_pin_pass (v : Z) (s : state) : state :=
  mkState v (chip_FD s) (pin_FDs s) (isr_functions s) (isr_threads s)
          (isr_modes s) (isr_function_called s) (open_fds s) (live_threads s) (trace s).
Definition set_chip_FD (v : Z) (s : state) : state :=
  mkState (pin_pass s) v (pin_FDs s) (isr_functions s) (isr_threads s)
          (isr_modes s) (isr_function_called s) (open_fds s) (live_threads s) (trace s).
Definition set_pin_FDs (v : list Z) (s : state) : state :=
  mkState (pin_pass s) (chip_FD s) v (isr_functions s) (isr_threads s)
          (isr_modes s) (isr_function_called s) (open_fds s) (live_threads s) (trace s).
Definition set_isr_functions (v : list (option callback)) (s : state) : state :=
  mkState (pin_pass s) (chip_FD s) (pin_FDs s) v (isr_threads s)
          (isr_modes s) (isr_function_called s) (open_fds s) (live_threads s) (trace s).
Definition set_isr_threads (v : list Z) (s : state) : state :=
  mkState (pin_pass s) (chip_FD s) (pin_FDs s) (isr_functions s) v
          (isr_modes s) (isr_function_called s) (open_fds s) (live_threads s) (trace s).
Definition set_isr_modes (v : list (option edge_mode)) (s : state) : state :=
  mkState (pin_pass s) (chip_FD s) (pin_FDs s) (isr_functions s) (isr_threads s)
          v (isr_function_called s) (open_fds s) (live_threads s) (trace s).
Definition set_isr_function_called (v : list Z) (s : state) : state :=
  mkState (pin_pass s) (chip_FD s) (pin_FDs s) (isr_functions s) (isr_threads s)
          (isr_modes s) v (open_fds s) (live_threads s) (trace s).
Definition set_open_fds (v : list Z) (s : state) : state :=
  mkState (pin_pass s) (chip_FD s) (pin_FDs s) (isr_functions s) (isr_threads s)
          (isr_modes s) (isr_function_called s) v (live_threads s) (trace s).
Definition set_live_threads (v : list (Z * Z)) (s : state) : state :=
  mkState (pin_pass s) (chip_FD s) (pin_FDs s) (isr_functions s) (isr_threads s)
          (isr_modes s) (isr_function_called s) (open_fds s) v (trace s).
Definition set_trace (v : list event) (s : state) : state :=
  mkState (pin_pass s) (chip_FD s) (pin_FDs s) (isr_functions s) (isr_threads s)
          (isr_modes s) (isr_function_called s) (open_fds s) (live_threads s) v.

(** ** The monad of the C functions *)

Inductive outcome (A : Type) :=
| Done (a : A) (s : state)   (* the function returned [a] *)
| Parked (s : state)         (* the thread is suspended in poll for good *)
| Ended (s : state)          (* the thread, cancelled, ended in the call *)
| Undefined.                 (* an access outside a table, or a call on a
                                thread id behind which no thread lives *)
Arguments Done {A} a s.
Arguments Parked {A} s.
Arguments Ended {A} s.
Arguments Undefined {A}.

Definition M (A : Type) : Type := state -> outcome A.

Definition ret {A} (a : A) : M A := fun s => Done a s.

Definition bind {A B} (c : M A) (k : A -> M B) : M B :=
  fun s => match c s with
           | Done a s' => k a s'
           | Parked s' => Parked s'
           | Ended s' => Ended s'
           | Undefined => Undefined
           end.

Notation "x <- c ;; k" := (bind c (fun x => k))
  (at level 100, c at next level, right associativity).
Notation "c ;;; k" := (bind c (fun _ => k))
  (at level 100, right associativity).

Definition get {A} (f : state -> A) : M A := fun s => Done (f s) s.
Definition modify (f : state -> state) : M unit := fun s => Done tt (f s).
Definition park : M unit := fun s => Parked s.
Definition ended : M unit := fun s => Ended s.
Definition undefined {A} : M A := fun _ => Undefined.

Definition log (e : event) : M unit := modify (fun s => set_trace (e :: trace s) s).
Definition printf (msg : string) : M unit := log (EvPrintf msg).

(** Table accesses.  [index] is the bounds of the declaration [t[32]]. *)
Definition index (pin : Z) : option nat :=
  if (0 <=? pin) && (pin <? NPINS) then Some (Z.to_nat pin) else None.

Definition load {A} (tbl : state -> list A) (pin : Z) : M A :=
  fun s => match index pin with
           | Some i => match tbl s !! i with
                       | Some v => Done v s
                       | None => Undefined
                       end
           | None => Undefined
           end.

Definition store {A} (tbl : state -> list A) (upd : list A -> state -> state)
           (pin : Z) (v : A) : M unit :=
  fun s => match index pin with
           | Some i => if decide (i < length (tbl s))%nat
                       then Done tt (upd (<[i := v]> (tbl s)) s)
                       else Undefined
           | None => Undefined
           end.

Definition store_FD := store pin_FDs set_pin_FDs.
Definition store_function := store isr_functions set_isr_functions.
Definition store_thread := store isr_threads set_isr_threads.
Definition store_mode := store isr_modes set_isr_modes.
Definition store_called := store isr_function_called set_isr_function_called.

(** ** System calls that change the process *)

Definition remove_fd (fd : Z) (l : list Z) : list Z :=
  filter (fun x => x <> fd) l.

Definition remove_thread (tid : Z) (l : list (Z * Z)) : list (Z * Z) :=
  filter (fun t => t.1 <> tid) l.

Definition is_live (tid : Z) (l : list (Z * Z)) : bool :=
  existsb (fun t => t.1 =? tid) l.

Definition fd_opened (fd : Z) : M unit :=
  modify (fun s => set_open_fds (fd :: open_fds s) s).

(** close is a cancellation point.  A dispatch thread that has been
    cancelled ends there, before the descriptor is closed; any other
    caller closes it. *)
Definition close (caller : option Z) (fd : Z) : M unit :=
  live <- get live_threads ;;
  if match caller with
     | Some self => is_live self live
     | None => true
     end
  then
    log (EvClose fd) ;;;
    modify (fun s => set_open_fds (remove_fd fd (open_fds s)) s)
  else ended.

(** pthread_cancel on the id of a live thread returns 0, and the thread
    is cancelled: it leaves [live_threads] (a thread in poll ends there;
    the calling thread itself runs on to its next cancellation point).
    For any other id there is no result to model: on an id that was
    never filled in the call crashes, and for a thread that has ended
    the answer depends on the library. *)
Definition pthread_cancel (tid : Z) : M Z :=
  live <- get live_threads ;;
  if is_live tid live then
    log (EvCancel tid 0) ;;;
    modify (set_live_threads (remove_thread tid live)) ;;;
    ret 0
  else undefined.

(** The thread function returned. *)
Definition thread_exit (self : Z) : M unit :=
  modify (fun s => set_live_threads (remove_thread self (live_threads s)) s).

(** ** wait_for_interrupt *)

(** What one poll of the loop, and the read after it, get from the kernel. *)
Record cycle := mkCycle {
  poll_ret : Z;      (* result of poll *)
  read_ret : Z;      (* result of read *)
  event_id : Z       (* event_data.id when the record was read whole *)
}.

(** [k = None]: the kernel has nothing to report on the descriptor, so
    poll returns only by timing out. *)
Definition wait_for_interrupt (pin ms : Z) (k : option cycle) : M Z :=
  fd <- load pin_FDs pin ;;
  if fd =? -1 then ret (-2)
  else
    log (EvPoll fd ms) ;;;
    match k with
    | None => if ms <? 0 then (park ;;; ret 0) else ret 0
    | Some c =>
        if poll_ret c <=? 0 then ret (poll_ret c)
        else
          fd' <- load pin_FDs pin ;;
          log (EvRead fd') ;;;
          if read_ret c =? sizeof_event_data then
            let r := to_int (event_id c) in
            (if r =? 1 then store_called pin 1 else ret tt) ;;;
            ret r
          else ret 0
    end.

(** ** wait_for_interrupt_to_close *)

(** The function as run by [caller]. *)
Definition wait_for_interrupt_to_close_from (caller : option Z) (pin : Z) : M Z :=
  fd <- load pin_FDs pin ;;
  (if fd >? 0 then
     tid <- load isr_threads pin ;;
     r <- pthread_cancel tid ;;
     (if r =? 0 then ret tt
      else printf "Failed: could not cancel thread") ;;;
     fd' <- load pin_FDs pin ;;
     close caller fd'
   else ret tt) ;;;
  store_FD pin (-1) ;;;
  store_function pin None ;;;
  store_called pin 1 ;;;
  ret 0.

(** The function as the program calls it, from a thread that is not a
    dispatch thread. *)
Definition wait_for_interrupt_to_close (pin : Z) : M Z :=
  wait_for_interrupt_to_close_from None pin.

(** ** interrupt_handler *)

(** The first statements of the thread: it takes its pin from pin_pass
    and gives the token back.  (piHiPri before them only asks for a
    scheduling priority; its result is dropped.) *)
Definition handler_entry : M Z :=
  pin <- get pin_pass ;;
  modify (set_pin_pass (-1)) ;;;
  ret pin.

(** One iteration of the for (;;) loop; [false] is the break. *)
Definition loop_body (pin : Z) (k : option cycle) : M bool :=
  r <- wait_for_interrupt pin (-1) k ;;
  if r >? 0 then
    f <- load isr_functions pin ;;
    match f with
    | Some cb =>
        called <- load isr_function_called pin ;;
        if negb (called =? 0) then
          log (EvCall cb) ;;;
          store_called pin 0 ;;;
          ret true
        else ret true
    | None => ret true
    end
  else if r <? 0 then ret false
  else ret true.

(** The loop over the cycles the kernel supplies; after the last one the
    thread enters wait_for_interrupt once more. *)
Fixpoint handler_loop (pin : Z) (ks : list cycle) : M unit :=
  match ks with
  | [] => loop_body pin None ;;; ret tt
  | k :: ks' =>
      continue <- loop_body pin (Some k) ;;
      if continue then handler_loop pin ks' else ret tt
  end.

(** The thread from the loop on, for the thread [self] that captured [pin]. *)
Definition handler_body (self pin : Z) (ks : list cycle) : M unit :=
  handler_loop pin ks ;;;
  wait_for_interrupt_to_close_from (Some self) pin ;;;
  thread_exit self.

Definition interrupt_handler (self : Z) (ks : list cycle) : M unit :=
  pin <- handler_entry ;;
  handler_body self pin ks.

(** ** interrupt_init *)

(** What the kernel answers to the calls of one registration. *)
Record syscalls := mkSyscalls {
  open_ret : Z;      (* open of /dev/gpiochip0 *)
  ioctl_ret : Z;     (* GPIO_GET_LINEEVENT_IOCTL *)
  req_fd : Z;        (* req.fd as the ioctl filled it *)
  getfl_ret : Z;     (* fcntl F_GETFL *)
  setfl_ret : Z;     (* fcntl F_SETFL *)
  create_ret : Z;    (* pthread_create *)
  new_tid : Z        (* what it left in the thread id: the id of the new
                        thread, or any value when it failed *)
}.

Definition eventflags_of (mode : edge_mode) : Z :=
  match mode with
  | FALLING_EDGE => GPIOEVENT_REQUEST_FALLING_EDGE
  | RISING_EDGE => GPIOEVENT_REQUEST_RISING_EDGE
  | BOTH_EDGE => GPIOEVENT_REQUEST_BOTH_EDGES
  end.

(** The sleep(1) at the start is a delay only.  Each return of the
    source is one of the [ret]s; the messages are given without their
    arguments. *)
Definition interrupt_init (pin : Z) (mode : edge_mode) (e : syscalls) : M Z :=
  chip <- get chip_FD ;;
  have_chip <-
    (if chip <? 0 then
       modify (set_chip_FD (open_ret e)) ;;;
       log (EvOpenChip (open_ret e)) ;;;
       if open_ret e <? 0 then
         printf "Error opening: /dev/gpiochip0" ;;; ret false
       else fd_opened (open_ret e) ;;; ret true
     else ret true) ;;
  if negb have_chip then ret (-1)
  else
    chip' <- get chip_FD ;;
    log (EvIoctl chip' pin GPIOHANDLE_REQUEST_INPUT (eventflags_of mode) (ioctl_ret e)) ;;;
    if negb (ioctl_ret e =? 0) then
      printf "Failed: /dev/gpiochip0 ioctl get line" ;;; ret (-1)
    else
      let fd_line := req_fd e in
      fd_opened fd_line ;;;
      store_FD pin fd_line ;;;
      let flags := Z.lor (getfl_ret e) O_NONBLOCK in
      log (EvFcntl fd_line flags (setfl_ret e)) ;;;
      if negb (setfl_ret e =? 0) then
        printf "Failed: /dev/gpiochip0 fcntl set nonblock" ;;; ret (-1)
      else ret 0.

(** ** jakestering_ISR *)

(** pthread_create succeeded and the handshake loop has seen pin_pass
    back at -1: the thread [tid] exists and has run [handler_entry]. *)
Definition thread_started (tid : Z) : M unit :=
  log (EvSpawn tid) ;;;
  captured <- handler_entry ;;
  modify (fun s => set_live_threads ((tid, captured) :: live_threads s) s).

(** pin_mutex is held around the handshake; with one registering
    thread, as in main, taking and releasing it changes nothing.
    pthread_create is handed &isr_threads[pin]: what it leaves there is
    [new_tid], whether it succeeds or fails. *)
Definition jakestering_ISR (pin : Z) (mode : edge_mode)
           (function : option callback) (e : syscalls) : M Z :=
  store_function pin function ;;;
  store_mode pin (Some mode) ;;;
  store_called pin 1 ;;;
  r <- interrupt_init pin mode e ;;
  (if r <? 0 then printf "Waiting for interrupt init failed" else ret tt) ;;;
  modify (set_pin_pass pin) ;;;
  store_thread pin (new_tid e) ;;;
  (if create_ret e =? 0 then thread_started (new_tid e)
   else printf "Failed to create thread") ;;;
  ret 0.

(** ** Readings of a state *)

(** The entry of [pin]: descriptor, callback, armed flag. *)
Definition entry (s : state) (pin : Z) : option (Z * option callback * Z) :=
  i ← index pin;
  fd ← pin_FDs s !! i;
  f ← isr_functions s !! i;
  c ← isr_function_called s !! i;
  Some (fd, f, c).

(** The callbacks run so far, most recent first. *)
Definition calls (t : list event) : list callback :=
  omap (fun e => match e with EvCall cb => Some cb | _ => None end) t.

(** The threads that captured [pin]. *)
Definition threads_of (pin : Z) (s : state) : list Z :=
  (filter (fun t => t.2 = pin) (live_threads s)).*1.

(** The descriptors closed and the threads cancelled so far. *)
Definition closed_fds (t : list event) : list Z :=
  omap (fun e => match e with EvClose fd => Some fd | _ => None end) t.

Definition cancelled (t : list event) : list Z :=
  omap (fun e => match e with EvCancel tid _ => Some tid | _ => None end) t.

(** The kernel answers of a registration in which the line-event
    descriptor is obtained: the chip is open or opens, and the line
    request is granted. *)
Definition descriptor_obtained (e : syscalls) (s : state) : Prop :=
  (0 <= chip_FD s \/ 0 <= open_ret e) /\ ioctl_ret e = 0.

(** The thread recorded for [pin] lives whenever the descriptor stored
    for the pin is positive: the teardown cancels a thread that is
    there. *)
Definition recorded_thread_live (pin : Z) (s : state) : Prop :=
  forall fd tid,
    pin_FDs s !! Z.to_nat pin = Some fd -> 0 < fd ->
    isr_threads s !! Z.to_nat pin = Some tid ->
    is_live tid (live_threads s) = true.

(** The kernel answers with which interrupt_init fails: no descriptor,
    or a descriptor that cannot be set non-blocking. *)
Definition init_fails (e : syscalls) (s : state) : Prop :=
  ~ descriptor_obtained e s \/ setfl_ret e <> 0.

Definition run_state {A} (o : outcome A) : option state :=
  match o with
  | Done _ s => Some s
  | Parked s => Some s
  | Ended s => Some s
  | Undefined => None
  end.

(** jakestering_ISR directly followed by wait_for_interrupt_to_close. *)
Definition register_then_unregister (pin : Z) (mode : edge_mode)
           (function : option callback) (e : syscalls) : M Z :=
  jakestering_ISR pin mode function e ;;;
  wait_for_interrupt_to_close pin.

(** A whole record with the identifier of an edge event. *)
Definition valid_event (k : cycle) : Prop :=
  0 < poll_ret k /\ read_ret k = sizeof_event_data /\ event_id k = 1.

(** A read that returned less than a record. *)
Definition short_read (k : cycle) : Prop :=
  0 < poll_ret k /\ read_ret k < sizeof_event_data.

(** A pin whose entry holds a descriptor and a callback. *)
Definition registered (pin fd : Z) (cb : callback) (s : state) : Prop :=
  wf s /\ pin_FDs s !! Z.to_nat pin = Some fd /\ fd <> -1 /\
  isr_functions s !! Z.to_nat pin = Some (Some cb).

(** Kernel answers used in the examples: a registration that gets
    descriptor 5 and thread 101, one whose line request is refused, one
    whose descriptor cannot be made non-blocking, and a later one that
    gets descriptor 6 and thread 102. *)
Definition kernel_ok : syscalls := mkSyscalls 3 0 5 0 0 0 101.
Definition kernel_busy : syscalls := mkSyscalls 3 (-1) 0 0 0 0 102.
Definition kernel_nonblock_fails : syscalls := mkSyscalls 3 0 5 0 (-1) 0 101.
Definition kernel_ok_again : syscalls := mkSyscalls 3 0 6 0 0 0 102.

Definition edge_event : cycle := mkCycle 1 16 1.
Definition half_record : cycle := mkCycle 1 8 1.

(** Pin 25 registered from the initial state, as main does. *)
Definition registered25 : state :=
  default init (run_state (jakestering_ISR 25 BOTH_EDGE (Some 7%nat) kernel_ok init)).

(** Pin 0 after a registration whose line request was refused. *)
Definition refused0 : state :=
  default init (run_state (jakestering_ISR 0 BOTH_EDGE (Some 7%nat) kernel_busy init)).

(** ** The GPIO helpers of jakestering.c *)

(** jakestering.h is not among the sources.  GPIO_SET and GPIO_CLR are
    taken as the names of two registers, which is how the functions use
    them (they assign to them); LOW and HIGH have the values 0 and 1
    that the comment of digitalWrite gives. *)
Inductive gpio_reg := GPIO_SET | GPIO_CLR.

Definition LOW : Z := 0.
Definition HIGH : Z := 1.

(** What a helper does to the outside, in the order in which it does it
    (unlike [trace], oldest first). *)
Inductive io :=
| IoWrite (r : gpio_reg) (v : Z)     (* r = v *)
| IoSleep (seconds : Z)
| IoUsleep (us : Z)
| IoPrintf (msg : string).

(** Conversion to a 32-bit unsigned. *)
Definition to_uint (z : Z) : Z := z mod 2 ^ 32.

(** [a << n] on int: defined when [a] is not negative, [n] is a shift
    count of the type and the result fits. *)
Definition shl (a n : Z) : option Z :=
  if (0 <=? a) && (0 <=? n) && (n <? 32) && (Z.shiftl a n <? 2 ^ 31)
  then Some (Z.shiftl a n) else None.

(** An int result; an overflow is undefined. *)
Definition int_of (z : Z) : option Z :=
  if (- 2 ^ 31 <=? z) && (z <? 2 ^ 31) then Some z else None.

Definition delay (milliSeconds : Z) : list io :=
  if Z.rem milliSeconds 1000 =? 0
  then [IoSleep (to_uint (Z.quot milliSeconds 1000))]
  else [IoUsleep (to_uint (Z.rem milliSeconds 1000 * 1000))].

Definition delayMicro (microSeconds : Z) : list io :=
  [IoUsleep (to_uint microSeconds)].

Definition digitalWrite (pin value : Z) : option (list io) :=
  if value =? LOW then
    bit ← shl 1 pin; Some [IoWrite GPIO_CLR (to_uint bit)]
  else if value =? HIGH then
    bit ← shl 1 pin; Some [IoWrite GPIO_SET (to_uint bit)]
  else Some [].

(** The for loop of digitalWriteByte with [n] iterations to go. *)
Fixpoint write_byte_loop (n : nat) (value i mask pinSet pinClr : Z) : option (Z * Z) :=
  match n with
  | O => Some (pinSet, pinClr)
  | S n' =>
      bit ← shl 1 i;
      let '(pinSet', pinClr') :=
        if Z.land value mask =? 0
        then (pinSet, Z.lor pinClr (to_uint bit))
        else (Z.lor pinSet (to_uint bit), pinClr) in
      mask' ← shl mask 1;
      write_byte_loop n' value (i + 1) mask' pinSet' pinClr'
  end.

(** The width is a subtraction on int.  The message is given without its
    argument. *)
Definition digitalWriteByte (value pinStart pinEnd : Z) : option (list io) :=
  width ← int_of (pinEnd - pinStart);
  if negb (width =? 7) then Some [IoPrintf "Must be 8 pins 0-7"]
  else
    '(pinSet, pinClr) ← write_byte_loop (Z.to_nat (pinEnd + 1 - pinStart))
                                         value pinStart 1 0 0;
    Some [IoWrite GPIO_CLR pinClr; IoWrite GPIO_SET pinSet].

(** The time a list of actions sleeps, in microseconds. *)
Definition micros (l : list io) : Z :=
  foldr (fun e acc => match e with
                      | IoSleep s => s * 1000000 + acc
                      | IoUsleep us => us + acc
                      | _ => acc
                      end) 0 l.

(** ** The text cursor of lcd128x64.c *)

(** lcd128x64.h is not among the sources: the record has the fields of
    the structure that the functions below use, and LCD and LCD128 are
    one type, as the calls between the functions need. *)
Record LCD128 := mkLCD128 {
  RS : Z; E : Z; DB0 : Z; DB7 : Z;
  cols : Z; rows : Z;
  cx : Z; cy : Z
}.

Definition set_cx (v : Z) (lcd : LCD128) : LCD128 :=
  mkLCD128 (RS lcd) (E lcd) (DB0 lcd) (DB7 lcd) (cols lcd) (rows lcd) v (cy lcd).
Definition set_cy (v : Z) (lcd : LCD128) : LCD128 :=
  mkLCD128 (RS lcd) (E lcd) (DB0 lcd) (DB7 lcd) (cols lcd) (rows lcd) (cx lcd) v.

Definition rowsOffset : list Z := [0; 64; 20; 84].

Definition pulseEnable (lcd : LCD128) : option (list io) :=
  hi ← digitalWrite (E lcd) HIGH;
  lo ← digitalWrite (E lcd) LOW;
  Some (hi ++ delayMicro 1 ++ lo ++ delayMicro 5).

Definition sendData (lcd : LCD128) (data : Z) : option (list io) :=
  bus ← digitalWriteByte data (DB0 lcd) (DB7 lcd);
  pulse ← pulseEnable lcd;
  Some (bus ++ pulse ++ delay 2).

Definition sendInstruction (lcd : LCD128) (instruction : Z) : option (list io) :=
  rs0 ← digitalWrite (RS lcd) LOW;
  out ← sendData lcd instruction;
  rs1 ← digitalWrite (RS lcd) HIGH;
  Some (rs0 ++ out ++ rs1).

(** The instruction code LCD128_DDRAM_SET comes from the header. *)
Section Lcd128Header.

Variable LCD128_DDRAM_SET : Z.

Definition lcdTextPosition (lcd : LCD128) (x y : Z) : option (list io * LCD128) :=
  if (x >? cols lcd) || (x <? 0) then Some ([], lcd)
  else if (y >? rows lcd) || (y <? 0) then Some ([], lcd)
  else
    off ← rowsOffset !! Z.to_nat y;
    ins ← int_of (x + Z.lor LCD128_DDRAM_SET off);
    out ← sendInstruction lcd ins;
    Some (out, set_cy y (set_cx x lcd)).

Definition lcdPutChar (lcd : LCD128) (character : Z) : option (list io * LCD128) :=
  out ← sendData lcd (character mod 256);
  cx1 ← int_of (cx lcd + 1);
  let lcd1 := set_cx cx1 lcd in
  if cx1 =? cols lcd1 then
    let lcd2 := set_cx 0 lcd1 in
    cy1 ← int_of (cy lcd2 + 1);
    let lcd3 := set_cy cy1 lcd2 in
    let lcd4 := if cy1 =? rows lcd3 then set_cy 0 lcd3 else lcd3 in
    '(out', lcd5) ← lcdTextPosition lcd4 (cx lcd4) (cy lcd4);
    Some (out ++ out', lcd5)
  else Some (out, lcd1).

Fixpoint lcdPuts (lcd : LCD128) (string : list Z) : option (list io * LCD128) :=
  match string with
  | [] => Some ([], lcd)
  | c :: rest =>
      if c =? 0 then Some ([], lcd)
      else
        '(out, lcd1) ← lcdPutChar lcd c;
        '(out', lcd2) ← lcdPuts lcd1 rest;
        Some (out ++ out', lcd2)
  end.

End Lcd128Header.

(** The pins of the display are pins of the port, with the eight data
    lines in a row. *)
Definition lcd_wired (lcd : LCD128) : Prop :=
  0 <= DB0 lcd <= 23 /\ DB7 lcd = DB0 lcd + 7 /\
  0 <= E lcd <= 30 /\ 0 <= RS lcd <= 30.

(** A panel of at most four text rows with the cursor on it. *)
Definition cursor_inside (lcd : LCD128) : Prop :=
  0 < cols lcd < 2 ^ 30 /\ 0 < rows lcd <= 4 /\
  0 <= cx lcd < cols lcd /\ 0 <= cy lcd < rows lcd.

(** The position of the cursor counted along the rows. *)
Definition cursor_index (lcd : LCD128) : Z := cy lcd * cols lcd + cx lcd.

Definition same_panel (lcd lcd' : LCD128) : Prop :=
  RS lcd' = RS lcd /\ E lcd' = E lcd /\ DB0 lcd' = DB0 lcd /\ DB7 lcd' = DB7 lcd /\
  cols lcd' = cols lcd /\ rows lcd' = rows lcd.

Definition lcd20x4 : LCD128 := mkLCD128 2 4 10 17 20 4 0 0.

(** ** Further readings of a run *)

(** A whole record whose identifier, as an int, is positive: the cycles
    after which the loop looks at the callback. *)
Definition delivering (k : cycle) : Prop :=
  0 < poll_ret k /\ read_ret k = sizeof_event_data /\ 0 < to_int (event_id k).

(** A whole record with a positive identifier other than 1, such as 2,
    the kernel's identifier of a falling edge. *)
Definition other_event (k : cycle) : Prop :=
  0 < poll_ret k /\ read_ret k = sizeof_event_data /\ 1 < to_int (event_id k).

Definition falling_event : cycle := mkCycle 1 16 2.

Definition deliveringb (k : cycle) : bool :=
  (0 <? poll_ret k) && (read_ret k =? sizeof_event_data) && (0 <? to_int (event_id k)).

(** [s'] differs from [s] at most in the trace and in the armed flag of
    [pin]; nothing was closed or cancelled on the way. *)
Definition dispatch_frame (pin : Z) (s s' : state) : Prop :=
  wf s' /\
  pin_pass s' = pin_pass s /\ chip_FD s' = chip_FD s /\
  pin_FDs s' = pin_FDs s /\ isr_functions s' = isr_functions s /\
  isr_threads s' = isr_threads s /\ isr_modes s' = isr_modes s /\
  open_fds s' = open_fds s /\ live_threads s' = live_threads s /\
  closed_fds (trace s') = closed_fds (trace s) /\
  cancelled (trace s') = cancelled (trace s) /\
  (forall q : nat, q <> Z.to_nat pin ->
     isr_function_called s' !! q = isr_function_called s !! q).

(** All that the five tables hold for the index [q]. *)
Definition row (s : state) (q : nat) :=
  (pin_FDs s !! q, isr_functions s !! q, isr_threads s !! q,
   isr_modes s !! q, isr_function_called s !! q).

(** The results of the opens of the chip device so far. *)
Definition chip_opens (t : list event) : list Z :=
  omap (fun e => match e with EvOpenChip r => Some r | _ => None end) t.

(** * Properties *)

(** ** Executing the monad *)

(** A field update reduces as soon as the state is a record of fields,
    so that updates never pile up. *)
Arguments set_pin_pass v !s /.
Arguments set_chip_FD v !s /.
Arguments set_pin_FDs v !s /.
Arguments set_isr_functions v !s /.
Arguments set_isr_threads v !s /.
Arguments set_isr_modes v !s /.
Arguments set_isr_function_called v !s /.
Arguments set_open_fds v !s /.
Arguments set_live_threads v !s /.
Arguments set_trace v !s /.
#[local] Arguments Z.lor : simpl never.
Arguments to_int : simpl never.
Arguments interrupt_init : simpl never.
Arguments remove_fd : simpl never.
Arguments remove_thread : simpl never.
Arguments is_live : simpl never.

Lemma index_Some (pin : Z) :
  0 <= pin < NPINS -> index pin = Some (Z.to_nat pin).
Proof.
  intros H. unfold index, NPINS in *.
  destruct (0 <=? pin) eqn:E1; destruct (pin <? 32) eqn:E2; simpl; auto; lia.
Qed.

Lemma index_None (pin : Z) :
  ~ (0 <= pin < NPINS) -> index pin = None.
Proof.
  intros H. unfold index, NPINS in *.
  destruct (0 <=? pin) eqn:E1; destruct (pin <? 32) eqn:E2; simpl; auto; lia.
Qed.

Lemma index_lt (pin : Z) :
  0 <= pin < NPINS -> (Z.to_nat pin < 32)%nat.
Proof. unfold NPINS. lia. Qed.

Lemma load_Done {A} (tbl : state -> list A) (pin : Z) (v : A) (s : state) :
  0 <= pin < NPINS -> tbl s !! Z.to_nat pin = Some v ->
  load tbl pin s = Done v s.
Proof. intros Hp Hv. unfold load. rewrite (index_Some pin Hp), Hv. reflexivity. Qed.

Lemma store_Done {A} (tbl : state -> list A) upd (pin : Z) (v : A) (s : state) :
  0 <= pin < NPINS -> length (tbl s) = 32%nat ->
  store tbl upd pin v s = Done tt (upd (<[Z.to_nat pin := v]> (tbl s)) s).
Proof.
  intros Hp Hl. unfold store. rewrite (index_Some pin Hp).
  rewrite decide_True; [reflexivity | rewrite Hl; apply index_lt, Hp].
Qed.

Lemma store_Undefined {A} (tbl : state -> list A) upd (pin : Z) (v : A) (s : state) :
  ~ (0 <= pin < NPINS) -> store tbl upd pin v s = Undefined.
Proof. intros Hp. unfold store. rewrite (index_None pin Hp). reflexivity. Qed.

Lemma wf_lookup {A} (l : list A) (pin : Z) :
  length l = 32%nat -> 0 <= pin < NPINS -> exists v, l !! Z.to_nat pin = Some v.
Proof.
  intros Hl Hp. apply lookup_lt_is_Some. rewrite Hl. apply index_lt, Hp.
Qed.

(** Symbolic execution of a computation on a state whose fields are
    known: table accesses are resolved with [load_Done] and
    [store_Done], everything else by computation. *)
Ltac unfold_ops :=
  unfold wait_for_interrupt_to_close, wait_for_interrupt_to_close_from,
    store_FD, store_function, store_thread, store_mode, store_called,
    printf, log, modify, get, ret, park, ended, undefined, fd_opened, close in *.

Ltac exec_step :=
  first
    [ erewrite load_Done by (first [eassumption | cbn; eassumption | cbn; apply list_lookup_insert_eq; cbn; lia])
    | rewrite store_Done by (first [assumption | cbn; assumption | cbn; rewrite ?length_insert; assumption]) ].

Ltac simpl_state := cbn in *.

Ltac exec := unfold_ops; unfold bind; cbn; repeat (exec_step; cbn).

(** Membership in, and inclusion into, a list with new elements in front. *)
Ltac in_list :=
  solve [ repeat (first [reflexivity | assumption | apply list_subseteq_cons]) 
        | rewrite !elem_of_cons; auto ].

(** A state taken apart into its fields, with the lengths of the tables. *)
Ltac open_state s Hwf :=
  destruct s as [pp chip fds fns ths mds cld ofd live tr];
  destruct Hwf as (Hfds & Hfns & Hths & Hmds & Hcld); cbn in *.

(** The same for a second state of the proof. *)
Ltac open_next_state s Hwf :=
  destruct s as [pp' chip' fds' fns' ths' mds' cld' ofd' live' tr'];
  destruct Hwf as (Hfds' & Hfns' & Hths' & Hmds' & Hcld'); cbn in *.

Lemma wait_unset (pin ms : Z) (k : option cycle) (s : state) :
  0 <= pin < NPINS -> pin_FDs s !! Z.to_nat pin = Some (-1) ->
  wait_for_interrupt pin ms k s = Done (-2) s.
Proof.
  intros Hp Hfd. unfold wait_for_interrupt. exec. reflexivity.
Qed.

Lemma bind_Done {A B} (c : M A) (k : A -> M B) (s s' : state) (b : B) :
  bind c k s = Done b s' ->
  exists a s1, c s = Done a s1 /\ k a s1 = Done b s'.
Proof.
  unfold bind. destruct (c s) as [a s1| | |]; intros H; try discriminate.
  exists a, s1. auto.
Qed.

Lemma close_returns_0 (pin r : Z) (s s' : state) :
  wait_for_interrupt_to_close pin s = Done r s' -> r = 0.
Proof.
  unfold wait_for_interrupt_to_close. intros H.
  repeat (apply bind_Done in H; destruct H as (? & ? & _ & H)).
  unfold ret in H. congruence.
Qed.

(** The teardown when the stored descriptor is not positive: the three
    stores and nothing else, whoever runs it. *)
Lemma close_from_not_positive (caller : option Z) (pin fd : Z) (s : state) :
  wf s -> 0 <= pin < NPINS ->
  pin_FDs s !! Z.to_nat pin = Some fd -> fd <= 0 ->
  wait_for_interrupt_to_close_from caller pin s =
  Done 0 (set_isr_function_called (<[Z.to_nat pin := 1]> (isr_function_called s))
         (set_isr_functions (<[Z.to_nat pin := None]> (isr_functions s))
         (set_pin_FDs (<[Z.to_nat pin := -1]> (pin_FDs s)) s))).
Proof.
  intros (H1 & H2 & H3 & H4 & H5) Hp Hfd Hle. exec.
  destruct (Z.gtb_spec fd 0); [lia|]. exec. reflexivity.
Qed.

Lemma close_not_positive (pin fd : Z) (s : state) :
  wf s -> 0 <= pin < NPINS ->
  pin_FDs s !! Z.to_nat pin = Some fd -> fd <= 0 ->
  wait_for_interrupt_to_close pin s =
  Done 0 (set_isr_function_called (<[Z.to_nat pin := 1]> (isr_function_called s))
         (set_isr_functions (<[Z.to_nat pin := None]> (isr_functions s))
         (set_pin_FDs (<[Z.to_nat pin := -1]> (pin_FDs s)) s))).
Proof. apply close_from_not_positive. Qed.

Lemma entry_reset (pin : Z) (s : state) fds fns cld :
  0 <= pin < NPINS ->
  length (pin_FDs s) = 32%nat -> length (isr_functions s) = 32%nat ->
  length (isr_function_called s) = 32%nat ->
  fds = <[Z.to_nat pin := -1]> (pin_FDs s) ->
  fns = <[Z.to_nat pin := None]> (isr_functions s) ->
  cld = <[Z.to_nat pin := 1]> (isr_function_called s) ->
  entry (set_isr_function_called cld (set_isr_functions fns (set_pin_FDs fds s))) pin
  = Some (-1, None, 1).
Proof.
  intros Hp H1 H2 H3 -> -> ->. destruct s. unfold entry.
  rewrite (index_Some pin Hp). cbn in *.
  pose proof (index_lt pin Hp).
  rewrite !list_lookup_insert_eq by lia. reflexivity.
Qed.

(** C10: when the stored descriptor of a pin is -1, wait_for_interrupt
    returns -2 and leaves the state as it is (no poll and no read are
    made).  In the dispatch thread of the pin this negative result is
    the break of the loop: whatever the kernel has to report, the thread
    goes on to wait_for_interrupt_to_close for its pin, which resets the
    entry, and then returns. *)
Theorem unset_descriptor_ends_thread (pin : Z) (s : state) :
  wf s -> 0 <= pin < NPINS ->
  pin_FDs s !! Z.to_nat pin = Some (-1) ->
  (forall ms k, wait_for_interrupt pin ms k s = Done (-2) s) /\
  (forall k, loop_body pin k s = Done false s) /\
  (exists s1,
      wait_for_interrupt_to_close pin s = Done 0 s1 /\
      entry s1 pin = Some (-1, None, 1) /\
      trace s1 = trace s /\ open_fds s1 = open_fds s /\
      forall self ks,
        handler_body self pin ks s =
        Done tt (set_live_threads (remove_thread self (live_threads s1)) s1)).
Proof.
  intros Hwf Hp Hfd.
  assert (Hbody : forall k, loop_body pin k s = Done false s).
  { intros k. unfold loop_body, bind. rewrite wait_unset by assumption. reflexivity. }
  assert (Hclose := close_not_positive pin (-1) s Hwf Hp Hfd ltac:(lia)).
  assert (Hfrom := fun caller =>
                     close_from_not_positive caller pin (-1) s Hwf Hp Hfd ltac:(lia)).
  split; [intros; apply wait_unset; assumption|].
  split; [exact Hbody|].
  eexists. split; [exact Hclose|].
  destruct Hwf as (H1 & H2 & H3 & H4 & H5).
  split; [apply entry_reset; auto|]. split; [reflexivity|]. split; [reflexivity|].
  intros self ks. unfold handler_body.
  assert (Hloop : handler_loop pin ks s = Done tt s).
  { destruct ks; cbn; unfold bind; rewrite Hbody; reflexivity. }
  unfold bind.
  rewrite Hloop, Hfrom. reflexivity.
Qed.

Lemma unset_descriptor_ends_thread_witness :
  wait_for_interrupt 0 (-1) (Some edge_event) init = Done (-2) init /\
  exists s1,
    wait_for_interrupt_to_close 0 init = Done 0 s1 /\
    handler_body 101 0 [edge_event] init =
    Done tt (set_live_threads (remove_thread 101 (live_threads s1)) s1).
Proof.
  destruct (unset_descriptor_ends_thread 0 init) as (Hw & _ & s1 & Hc & _ & _ & _ & Hb).
  - repeat split; reflexivity.
  - unfold NPINS; lia.
  - reflexivity.
  - split; [apply Hw|]. exists s1. split; [exact Hc | apply Hb].
Defined.

(** ** The dispatch loop *)

Lemma to_int_1 : to_int 1 = 1.
Proof. reflexivity. Qed.

(** Entered with nothing to read, the loop never comes round again: the
    iteration is the break on -2 or stays in poll.  This is why
    [handler_loop] ends after it. *)
Lemma loop_body_idle_stops (pin : Z) (s s' : state) :
  loop_body pin None s <> Done true s'.
Proof.
  unfold loop_body, wait_for_interrupt, bind, load.
  destruct (index pin) as [i|]; [|discriminate].
  destruct (pin_FDs s !! i) as [fd|]; [|discriminate].
  destruct (fd =? -1); cbn; discriminate.
Qed.

(** The iterations of the loop of one thread: its pin is in range and
    holds the descriptor [fd]. *)
Section DispatchLoop.

Variables pin fd : Z.
Hypothesis pin_range : 0 <= pin < NPINS.
Hypothesis fd_set : fd <> -1.

(** With nothing more to read the thread stays in poll. *)
Lemma loop_body_idle (s : state) :
  pin_FDs s !! Z.to_nat pin = Some fd ->
  loop_body pin None s = Parked (set_trace (EvPoll fd (-1) :: trace s) s).
Proof.
  intros Hfd. unfold loop_body, wait_for_interrupt. exec.
  destruct (Z.eqb_spec fd (-1)); [contradiction|]. reflexivity.
Qed.

(** *** Valid events *)

Variable cb : callback.

Lemma wait_valid (ms : Z) (k : cycle) (s : state) :
  registered pin fd cb s -> valid_event k ->
  exists s1,
    wait_for_interrupt pin ms (Some k) s = Done 1 s1 /\
    registered pin fd cb s1 /\
    isr_function_called s1 !! Z.to_nat pin = Some 1 /\
    trace s1 = EvRead fd :: EvPoll fd ms :: trace s.
Proof.
  intros (Hwf & Hfd & _ & Hfn) (Hpoll & Hread & Hid).
  destruct k as [pr rr id]. open_state s Hwf. subst rr id.
  unfold wait_for_interrupt. exec.
  destruct (Z.eqb_spec fd (-1)); [contradiction|].
  destruct (Z.leb_spec pr 0); [lia|]. exec.
  rewrite to_int_1. exec.
  eexists. split; [reflexivity|]. unfold registered, wf. simpl_state.
  pose proof (index_lt pin pin_range).
  repeat split; auto; rewrite ?length_insert; auto.
  apply list_lookup_insert_eq. lia.
Qed.

Lemma loop_body_valid (k : cycle) (s : state) :
  registered pin fd cb s -> valid_event k ->
  exists s2,
    loop_body pin (Some k) s = Done true s2 /\
    registered pin fd cb s2 /\
    isr_function_called s2 !! Z.to_nat pin = Some 0 /\
    trace s2 = EvCall cb :: EvRead fd :: EvPoll fd (-1) :: trace s.
Proof.
  intros Hreg Hk.
  destruct (wait_valid (-1) k s Hreg Hk)
    as (s1 & Hw & (Hwf & Hfd & _ & Hfn) & Hc & Ht).
  unfold loop_body. unfold bind at 1. rewrite Hw. cbn.
  open_state s1 Hwf. exec.
  eexists. split; [reflexivity|]. unfold registered, wf. simpl_state.
  pose proof (index_lt pin pin_range).
  repeat split; auto; rewrite ?length_insert; auto.
  - apply list_lookup_insert_eq. lia.
  - congruence.
Qed.

Lemma handler_loop_valid (ks : list cycle) :
  Forall valid_event ks ->
  forall s, registered pin fd cb s ->
  exists s',
    handler_loop pin ks s = Parked s' /\
    calls (trace s') = repeat cb (length ks) ++ calls (trace s) /\
    (ks <> [] -> isr_function_called s' !! Z.to_nat pin = Some 0).
Proof.
  induction 1 as [|k ks Hk Hks IH]; intros s Hreg.
  - destruct Hreg as (_ & Hfd & _).
    eexists. split; [|split; [|congruence]].
    + cbn. unfold bind. rewrite loop_body_idle by assumption. reflexivity.
    + reflexivity.
  - destruct (loop_body_valid k s Hreg Hk) as (s2 & Hb & Hreg2 & Hc & Ht).
    destruct (IH s2 Hreg2) as (s' & Hl & Hcalls & Harm).
    exists s'. split; [|split].
    + cbn. unfold bind at 1. rewrite Hb. exact Hl.
    + rewrite Hcalls, Ht.
      transitivity (repeat cb (length ks) ++ [cb] ++ calls (trace s)); [reflexivity|].
      rewrite app_assoc, <- repeat_cons. reflexivity.
    + intros _. destruct ks as [|k' ks'].
      * cbn in Hl. unfold bind in Hl.
        destruct Hreg2 as (_ & Hfd & _).
        rewrite loop_body_idle in Hl by assumption.
        inversion Hl; subst. cbn. exact Hc.
      * apply Harm. discriminate.
Qed.

(** *** Short reads *)

Lemma wait_short (ms : Z) (k : cycle) (s : state) :
  pin_FDs s !! Z.to_nat pin = Some fd -> short_read k ->
  wait_for_interrupt pin ms (Some k) s
  = Done 0 (set_trace (EvRead fd :: EvPoll fd ms :: trace s) s).
Proof.
  intros Hfd (Hpoll & Hread). destruct k as [pr rr id]. cbn in *.
  unfold wait_for_interrupt. exec.
  destruct (Z.eqb_spec fd (-1)); [contradiction|].
  destruct (Z.leb_spec pr 0); [lia|]. exec.
  destruct (Z.eqb_spec rr sizeof_event_data); [lia|]. reflexivity.
Qed.

Lemma loop_body_short (k : cycle) (s : state) :
  pin_FDs s !! Z.to_nat pin = Some fd -> short_read k ->
  loop_body pin (Some k) s
  = Done true (set_trace (EvRead fd :: EvPoll fd (-1) :: trace s) s).
Proof.
  intros Hfd Hk. unfold loop_body. unfold bind at 1.
  rewrite wait_short by assumption. reflexivity.
Qed.

Lemma handler_loop_short (ks : list cycle) :
  Forall short_read ks ->
  forall s, pin_FDs s !! Z.to_nat pin = Some fd ->
  exists t, handler_loop pin ks s = Parked (set_trace t s) /\
            calls t = calls (trace s).
Proof.
  induction 1 as [|k ks Hk Hks IH]; intros s Hfd.
  - exists (EvPoll fd (-1) :: trace s). split; [|reflexivity].
    cbn. unfold bind. rewrite loop_body_idle by assumption. reflexivity.
  - destruct (IH (set_trace (EvRead fd :: EvPoll fd (-1) :: trace s) s) Hfd)
      as (t & Hl & Hc).
    exists t. split; [|exact Hc].
    cbn. unfold bind at 1. rewrite loop_body_short by assumption.
    exact Hl.
Qed.

End DispatchLoop.

(** C1: on a registered pin, a decoded valid edge event gives exactly one
    run of the callback.  wait_for_interrupt returns 1 with the armed
    flag of the pin set and the callback not yet run; the loop iteration
    then runs the callback once, after the read, and clears the flag.
    A sequence of valid events, one per iteration, runs the callback once
    for each of them: two events are two deliveries. *)
Theorem valid_event_runs_callback_once (pin fd : Z) (cb : callback) (s : state) :
  wf s -> 0 <= pin < NPINS ->
  pin_FDs s !! Z.to_nat pin = Some fd -> fd <> -1 ->
  isr_functions s !! Z.to_nat pin = Some (Some cb) ->
  (forall k, valid_event k ->
     (exists s1, wait_for_interrupt pin (-1) (Some k) s = Done 1 s1 /\
                 isr_function_called s1 !! Z.to_nat pin = Some 1 /\
                 calls (trace s1) = calls (trace s)) /\
     (exists s2, loop_body pin (Some k) s = Done true s2 /\
                 trace s2 = EvCall cb :: EvRead fd :: EvPoll fd (-1) :: trace s /\
                 isr_function_called s2 !! Z.to_nat pin = Some 0)) /\
  (forall ks, Forall valid_event ks ->
     exists s', handler_loop pin ks s = Parked s' /\
                calls (trace s') = repeat cb (length ks) ++ calls (trace s) /\
                (ks <> [] -> isr_function_called s' !! Z.to_nat pin = Some 0)).
Proof.
  intros Hwf Hp Hfd Hne Hfn.
  assert (Hreg : registered pin fd cb s) by (unfold registered; tauto).
  split.
  - intros k Hk. split.
    + destruct (wait_valid pin fd Hp Hne cb (-1) k s Hreg Hk) as (s1 & Hw & _ & Hc & Ht).
      exists s1. repeat split; auto. rewrite Ht. reflexivity.
    + destruct (loop_body_valid pin fd Hp Hne cb k s Hreg Hk) as (s2 & Hb & _ & Hc & Ht).
      exists s2. auto.
  - intros ks Hks. apply (handler_loop_valid pin fd Hp Hne cb ks Hks s Hreg).
Qed.

Lemma valid_event_runs_callback_once_witness :
  exists s', handler_loop 25 [edge_event; edge_event] registered25 = Parked s' /\
             calls (trace s') = [7%nat; 7%nat] /\
             isr_function_called s' !! 25%nat = Some 0.
Proof.
  destruct (valid_event_runs_callback_once 25 5 7%nat registered25) as [_ H].
  - repeat split; reflexivity.
  - unfold NPINS; lia.
  - reflexivity.
  - lia.
  - reflexivity.
  - destruct (H [edge_event; edge_event]) as (s' & Hl & Hc & Ha).
    + repeat constructor.
    + exists s'. split; [exact Hl|]. split; [exact Hc|]. apply Ha. discriminate.
Defined.

(** C6: a read that returns less than a whole event record never runs
    the callback.  wait_for_interrupt gives 0 for that cycle, the loop
    iteration goes on to the next one with the tables untouched, and a
    thread that only ever gets short reads never runs the callback. *)
Theorem short_read_never_runs_callback (pin fd : Z) (s : state) :
  0 <= pin < NPINS -> pin_FDs s !! Z.to_nat pin = Some fd -> fd <> -1 ->
  (forall k ms, short_read k ->
     exists s1, wait_for_interrupt pin ms (Some k) s = Done 0 s1 /\
                calls (trace s1) = calls (trace s)) /\
  (forall k, short_read k ->
     exists t, loop_body pin (Some k) s = Done true (set_trace t s) /\
               calls t = calls (trace s)) /\
  (forall ks, Forall short_read ks ->
     exists t, handler_loop pin ks s = Parked (set_trace t s) /\
               calls t = calls (trace s)).
Proof.
  intros Hp Hfd Hne. repeat split.
  - intros k ms Hk. eexists. split; [apply (wait_short pin fd); assumption|reflexivity].
  - intros k Hk. eexists. split; [apply (loop_body_short pin fd); assumption|reflexivity].
  - intros ks Hks. apply (handler_loop_short pin fd Hp Hne ks Hks s Hfd).
Qed.

Lemma short_read_never_runs_callback_witness :
  exists t, handler_loop 25 [half_record; half_record] registered25
            = Parked (set_trace t registered25) /\
            calls t = [].
Proof.
  destruct (short_read_never_runs_callback 25 5 registered25) as (_ & _ & H).
  - unfold NPINS; lia.
  - reflexivity.
  - lia.
  - apply (H [half_record; half_record]).
    repeat constructor; unfold sizeof_event_data; cbn; lia.
Defined.

(** ** The initial tables *)

(** Whatever the kernel answers, a stored descriptor other than -1 is
    polled. *)
Lemma wait_polls (pin fd ms : Z) (k : option cycle) (s : state) :
  wf s -> 0 <= pin < NPINS ->
  pin_FDs s !! Z.to_nat pin = Some fd -> fd <> -1 ->
  exists s' t, run_state (wait_for_interrupt pin ms k s) = Some s' /\
               trace s' = t ++ EvPoll fd ms :: trace s.
Proof.
  intros Hwf Hp Hfd Hne. open_state s Hwf.
  unfold wait_for_interrupt. exec.
  destruct (Z.eqb_spec fd (-1)); [contradiction|].
  destruct k as [[pr rr id]|]; cbn.
  - destruct (Z.leb_spec pr 0).
    + eexists _, []. split; reflexivity.
    + exec. destruct (Z.eqb_spec rr sizeof_event_data).
      * destruct (to_int id =? 1); exec; eexists _, [_]; split; reflexivity.
      * eexists _, [_]. split; reflexivity.
  - destruct (ms <? 0); eexists _, []; split; reflexivity.
Qed.

Lemma init_rest (pin : Z) :
  1 <= pin <= 31 ->
  pin_FDs init !! Z.to_nat pin = Some 0 /\
  isr_function_called init !! Z.to_nat pin = Some 0.
Proof.
  intros Hp. destruct (Z.to_nat pin) as [|n] eqn:E; [lia|].
  unfold init, pin_FDs, isr_function_called.
  rewrite !lookup_cons. split; apply lookup_replicate_2; lia.
Qed.

Lemma wf_init : wf init.
Proof. repeat split; reflexivity. Qed.

(** C9: in the initial state only entry 0 of pin_FDs and of
    isr_function_called has the value of the initialiser (-1 and 1);
    the entries of pins 1..31 are 0.  So for a pin in 1..31 that was
    never registered the test against -1 in wait_for_interrupt does not
    fire: the function does not return -2 from that test but polls
    descriptor 0; for pin 0 it does return -2. *)
Theorem initial_tables_only_first_entry_set :
  pin_FDs init !! 0%nat = Some (-1) /\
  isr_function_called init !! 0%nat = Some 1 /\
  (forall ms k, wait_for_interrupt 0 ms k init = Done (-2) init) /\
  (forall pin, 1 <= pin <= 31 ->
     pin_FDs init !! Z.to_nat pin = Some 0 /\
     isr_function_called init !! Z.to_nat pin = Some 0 /\
     forall ms k,
       exists s', run_state (wait_for_interrupt pin ms k init) = Some s' /\
                  last (trace s') = Some (EvPoll 0 ms)).
Proof.
  split; [reflexivity|]. split; [reflexivity|]. split.
  - intros ms k. apply wait_unset; [unfold NPINS; lia | reflexivity].
  - intros pin Hp. destruct (init_rest pin Hp) as [Hfd Hc].
    split; [exact Hfd|]. split; [exact Hc|].
    intros ms k.
    assert (Hrange : 0 <= pin < NPINS) by (unfold NPINS; lia).
    assert (Hne : 0 <> -1) by lia.
    destruct (wait_polls pin 0 ms k init wf_init Hrange Hfd Hne) as (s' & t & Hr & Ht).
    exists s'. split; [exact Hr|]. rewrite Ht. cbn.
    rewrite last_app. reflexivity.
Qed.

Lemma initial_tables_only_first_entry_set_witness :
  pin_FDs init !! 1%nat = Some 0 /\
  isr_function_called init !! 1%nat = Some 0 /\
  wait_for_interrupt 1 (-1) None init = Parked (set_trace [EvPoll 0 (-1)] init).
Proof.
  destruct initial_tables_only_first_entry_set as (_ & _ & _ & H).
  destruct (H 1) as (Hfd & Hc & _); [lia|].
  split; [exact Hfd|]. split; [exact Hc|]. reflexivity.
Defined.

(** ** Registration *)

Lemma descriptor_obtained_dec (e : syscalls) (s : state) :
  descriptor_obtained e s \/ ~ descriptor_obtained e s.
Proof. unfold descriptor_obtained. lia. Qed.

(** What interrupt_init does, for every answer of the kernel. *)
Lemma interrupt_init_spec (pin : Z) (mode : edge_mode) (e : syscalls) (s : state) :
  wf s -> 0 <= pin < NPINS ->
  exists r s',
    interrupt_init pin mode e s = Done r s' /\
    wf s' /\
    pin_pass s' = pin_pass s /\
    isr_functions s' = isr_functions s /\
    isr_threads s' = isr_threads s /\
    isr_modes s' = isr_modes s /\
    isr_function_called s' = isr_function_called s /\
    live_threads s' = live_threads s /\
    open_fds s ⊆ open_fds s' /\
    closed_fds (trace s') = closed_fds (trace s) /\
    cancelled (trace s') = cancelled (trace s) /\
    (descriptor_obtained e s ->
       pin_FDs s' = <[Z.to_nat pin := req_fd e]> (pin_FDs s) /\
       req_fd e ∈ open_fds s' /\
       (setfl_ret e = 0 -> r = 0) /\ (setfl_ret e <> 0 -> r = -1)) /\
    (~ descriptor_obtained e s -> pin_FDs s' = pin_FDs s /\ r = -1).
Proof.
  intros Hwf Hp. open_state s Hwf. destruct e as [op io rfd gfl sfl cr tid].
  unfold interrupt_init, descriptor_obtained. exec.
  destruct (Z.ltb_spec chip 0); exec;
    [destruct (Z.ltb_spec op 0); exec|];
    try (destruct (Z.eqb_spec io 0); exec; [destruct (Z.eqb_spec sfl 0); exec|]);
    do 2 eexists; (split; [reflexivity|]); unfold wf; simpl_state;
    rewrite ?length_insert;
    repeat split; auto; try lia; try in_list.
Qed.

(** What jakestering_ISR does, for every answer of the kernel. *)
Lemma jakestering_ISR_spec (pin : Z) (mode : edge_mode) (f : option callback)
      (e : syscalls) (s : state) :
  wf s -> 0 <= pin < NPINS ->
  exists s',
    jakestering_ISR pin mode f e s = Done 0 s' /\
    wf s' /\
    isr_functions s' = <[Z.to_nat pin := f]> (isr_functions s) /\
    isr_modes s' = <[Z.to_nat pin := Some mode]> (isr_modes s) /\
    isr_function_called s' = <[Z.to_nat pin := 1]> (isr_function_called s) /\
    open_fds s ⊆ open_fds s' /\
    closed_fds (trace s') = closed_fds (trace s) /\
    cancelled (trace s') = cancelled (trace s) /\
    (descriptor_obtained e s ->
       pin_FDs s' = <[Z.to_nat pin := req_fd e]> (pin_FDs s) /\
       req_fd e ∈ open_fds s') /\
    (~ descriptor_obtained e s -> pin_FDs s' = pin_FDs s) /\
    (init_fails e s ->
       EvPrintf "Waiting for interrupt init failed" ∈ trace s') /\
    (create_ret e = 0 ->
       live_threads s' = (new_tid e, pin) :: live_threads s /\
       isr_threads s' = <[Z.to_nat pin := new_tid e]> (isr_threads s) /\
       pin_pass s' = -1) /\
    (create_ret e <> 0 ->
       live_threads s' = live_threads s /\
       isr_threads s' = <[Z.to_nat pin := new_tid e]> (isr_threads s) /\
       pin_pass s' = pin).
Proof.
  intros Hwf Hp. open_state s Hwf.
  unfold jakestering_ISR, thread_started, handler_entry. exec.
  match goal with
  | |- context [interrupt_init ?p ?m ?e0 ?st] =>
      set (s0 := st);
      destruct (interrupt_init_spec p m e0 s0)
        as (r & s1 & Hi & Hwf1 & Hpp & Hfn & Hth & Hmd & Hcl & Hlv & Hof & Hcf & Hcn & Hob & Hno);
      [ unfold wf; simpl_state; rewrite ?length_insert; auto | exact Hp | rewrite Hi ]
  end.
  assert (Hfail : init_fails e s0 -> r = -1).
  { intros [Hx|Hx]; [apply Hno, Hx|].
    destruct (descriptor_obtained_dec e s0) as [Hy|Hy]; [apply Hob; assumption | apply Hno, Hy]. }
  subst s0. unfold init_fails, descriptor_obtained in *.
  open_next_state s1 Hwf1. subst.
  destruct (Z.ltb_spec r 0); exec;
    (destruct (Z.eqb_spec (create_ret e) 0); exec);
    (eexists; split; [reflexivity|]); unfold wf; simpl_state;
    rewrite ?length_insert.
  all: split; [repeat split; assumption|].
  all: do 3 (split; [reflexivity|]).
  all: do 3 (split; [assumption|]).
  all: split; [intros Hx; destruct (Hob Hx) as (-> & Hy & _); auto|].
  all: split; [intros Hx; destruct (Hno Hx) as (-> & _); reflexivity|].
  all: split; [intros Hx; first [in_list | specialize (Hfail Hx); lia]|].
  all: split; intros Hx; first [lia | contradiction | auto].
Qed.

(** ** Teardown *)

Lemma not_in_remove_fd (fd : Z) (l : list Z) : fd ∉ remove_fd fd l.
Proof.
  unfold remove_fd. intros H. apply list_elem_of_filter in H.
  destruct H as [H _]. congruence.
Qed.

Lemma not_in_remove_thread (tid : Z) (l : list (Z * Z)) :
  tid ∉ (remove_thread tid l).*1.
Proof.
  unfold remove_thread. intros H. apply list_elem_of_fmap in H.
  destruct H as (t & -> & H). apply list_elem_of_filter in H.
  destruct H as [H _]. congruence.
Qed.

Lemma is_live_false (tid : Z) (l : list (Z * Z)) :
  is_live tid l = false -> tid ∉ l.*1.
Proof.
  unfold is_live. induction l as [|t l IH]; cbn; intros H.
  - apply not_elem_of_nil.
  - apply orb_false_iff in H. destruct H as [H1 H2].
    apply not_elem_of_cons. split; [|auto].
    apply Z.eqb_neq in H1. congruence.
Qed.

Create HintDb teardown.
#[local] Hint Resolve not_in_remove_fd not_in_remove_thread is_live_false : teardown.

(** What wait_for_interrupt_to_close does on an entry whose recorded
    thread lives. *)
Lemma close_spec (pin : Z) (s : state) :
  wf s -> 0 <= pin < NPINS -> recorded_thread_live pin s ->
  exists s',
    wait_for_interrupt_to_close pin s = Done 0 s' /\
    wf s' /\
    entry s' pin = Some (-1, None, 1) /\
    isr_threads s' = isr_threads s /\
    isr_modes s' = isr_modes s /\
    (forall fd tid,
        pin_FDs s !! Z.to_nat pin = Some fd -> 0 < fd ->
        isr_threads s !! Z.to_nat pin = Some tid ->
        (fd ∉ open_fds s') /\ (tid ∉ (live_threads s').*1) /\
        closed_fds (trace s') = fd :: closed_fds (trace s) /\
        cancelled (trace s') = tid :: cancelled (trace s)).
Proof.
  intros Hwf Hp Hrec. pose proof (index_lt pin Hp) as Hlt.
  unfold recorded_thread_live in Hrec. open_state s Hwf.
  destruct (wf_lookup fds pin Hfds Hp) as [fd Hfd].
  destruct (wf_lookup ths pin Hths Hp) as [tid Htid].
  unfold pthread_cancel, entry.
  rewrite (index_Some pin Hp). exec.
  destruct (Z.gtb_spec fd 0); exec.
  - rewrite (Hrec fd tid Hfd ltac:(lia) Htid). exec.
    eexists; split; [reflexivity|]. unfold wf; simpl_state.
    rewrite ?length_insert, !list_lookup_insert_eq by lia.
    do 4 (split; [auto|]).
    intros fd0 tid0 Hfd0 Hpos Htid0.
    assert (fd0 = fd) by congruence. assert (tid0 = tid) by congruence. subst.
    do 3 (split; [auto with teardown|]). reflexivity.
  - eexists; split; [reflexivity|]. unfold wf. simpl_state.
    rewrite ?length_insert, !list_lookup_insert_eq by lia.
    do 4 (split; [auto|]).
    intros fd0 tid0 Hfd0 Hpos Htid0. assert (fd0 = fd) by congruence. lia.
Qed.

(** ** The claims on registration and teardown *)







(** C4, as stated, fails: F_SETFL fails for the new descriptor 5, and
    interrupt_init returns -1 with descriptor 5 still open, stored in
    pin_FDs[25], and no close made. *)
Lemma nonblock_failure_keeps_descriptor :
  exists s',
    interrupt_init 25 BOTH_EDGE kernel_nonblock_fails init = Done (-1) s' /\
    pin_FDs s' !! 25%nat = Some 5 /\
    open_fds s' = [5; 3] /\
    closed_fds (trace s') = [].
Proof.
  eexists. split; [vm_compute; reflexivity|]. repeat split.
Qed.

(** C4, amended: when the new descriptor cannot be set non-blocking,
    interrupt_init returns -1 (the value of all its failures); the
    descriptor is not closed: it stays open and stays stored in
    pin_FDs[pin]. *)
Theorem nonblock_failure_returns_minus_1 (pin : Z) (mode : edge_mode)
        (e : syscalls) (s : state) :
  wf s -> 0 <= pin < NPINS ->
  descriptor_obtained e s -> setfl_ret e <> 0 ->
  exists s',
    interrupt_init pin mode e s = Done (-1) s' /\
    pin_FDs s' !! Z.to_nat pin = Some (req_fd e) /\
    req_fd e ∈ open_fds s' /\
    closed_fds (trace s') = closed_fds (trace s).
Proof.
  intros Hwf Hp Hob Hset. pose proof (index_lt pin Hp) as Hlt.
  destruct (interrupt_init_spec pin mode e s Hwf Hp)
    as (r & s' & Hi & _ & _ & _ & _ & _ & _ & _ & _ & Hcf & _ & H & _).
  destruct (H Hob) as (Hfd & Hopen & _ & Hr). rewrite (Hr Hset) in Hi.
  destruct Hwf as (H1 & _).
  exists s'. split; [exact Hi|]. rewrite Hfd, list_lookup_insert_eq by lia.
  auto.
Qed.

Lemma nonblock_failure_returns_minus_1_witness :
  exists s',
    interrupt_init 25 BOTH_EDGE kernel_nonblock_fails init = Done (-1) s' /\
    pin_FDs s' !! 25%nat = Some 5 /\
    5 ∈ open_fds s'.
Proof.
  destruct (nonblock_failure_returns_minus_1 25 BOTH_EDGE kernel_nonblock_fails init)
    as (s' & Hr & Hfd & Ho & _).
  - repeat split; reflexivity.
  - unfold NPINS; lia.
  - unfold descriptor_obtained; cbn; lia.
  - cbn; lia.
  - exists s'. auto.
Defined.

(** C5, as stated, fails.  Pin 1 was never registered; the call on it
    rewrites its entry (descriptor 0 to -1, armed flag 0 to 1).  Pin 0,
    after a refused registration, has descriptor -1; the call on it
    clears the stored callback.  In both cases the state is not the one
    before, and the result is 0, the result of the teardown of the
    registered pin 25 as well: nothing tells the caller that the pin was
    not registered. *)
Lemma close_unregistered_changes_entry :
  (entry init 1 = Some (0, None, 0) /\
   exists s', wait_for_interrupt_to_close 1 init = Done 0 s' /\
              entry s' 1 = Some (-1, None, 1)) /\
  (entry refused0 0 = Some (-1, Some 7%nat, 1) /\
   exists s', wait_for_interrupt_to_close 0 refused0 = Done 0 s' /\
              entry s' 0 = Some (-1, None, 1)) /\
  (exists s', wait_for_interrupt_to_close 25 registered25 = Done 0 s' /\
              cancelled (trace s') = [101] /\ closed_fds (trace s') = [5]).
Proof.
  split; [|split].
  - split; [reflexivity|].
    eexists. split; [vm_compute; reflexivity|]. reflexivity.
  - split; [reflexivity|].
    eexists. split; [vm_compute; reflexivity|]. reflexivity.
  - eexists. split; [vm_compute; reflexivity|]. split; reflexivity.
Qed.

(** C5, amended: for a pin whose stored descriptor is not positive,
    wait_for_interrupt_to_close cancels no thread and closes no
    descriptor (trace, open descriptors and live threads are as before),
    sets the entry of the pin to descriptor -1, callback NULL and armed
    flag 1, leaves every other variable as it is, and returns 0, which is
    the only value the function returns. *)
Theorem close_without_descriptor (pin fd : Z) (s : state) :
  wf s -> 0 <= pin < NPINS ->
  pin_FDs s !! Z.to_nat pin = Some fd -> fd <= 0 ->
  (exists s',
      wait_for_interrupt_to_close pin s = Done 0 s' /\
      trace s' = trace s /\ open_fds s' = open_fds s /\
      live_threads s' = live_threads s /\
      pin_FDs s' = <[Z.to_nat pin := -1]> (pin_FDs s) /\
      isr_functions s' = <[Z.to_nat pin := None]> (isr_functions s) /\
      isr_function_called s' = <[Z.to_nat pin := 1]> (isr_function_called s) /\
      isr_threads s' = isr_threads s /\ isr_modes s' = isr_modes s /\
      pin_pass s' = pin_pass s /\ chip_FD s' = chip_FD s) /\
  (forall s0 r s1, wait_for_interrupt_to_close pin s0 = Done r s1 -> r = 0).
Proof.
  intros Hwf Hp Hfd Hle. split.
  - eexists. split; [apply (close_not_positive pin fd); assumption|].
    repeat split.
  - intros s0 r s1. apply close_returns_0.
Qed.

Lemma close_without_descriptor_witness :
  exists s',
    wait_for_interrupt_to_close 1 init = Done 0 s' /\
    trace s' = trace init /\
    pin_FDs s' = <[1%nat := -1]> (pin_FDs init).
Proof.
  destruct (close_without_descriptor 1 0 init) as [(s' & Hr & Ht & _ & _ & Hfd & _) _].
  - repeat split; reflexivity.
  - unfold NPINS; lia.
  - reflexivity.
  - lia.
  - exists s'. auto.
Defined.

(** C7, as stated, fails: with pin 32 jakestering_ISR does not return an
    error.  Its first statement is the store to isr_functions[32], past
    the end of the table. *)
Lemma out_of_range_pin_not_rejected :
  jakestering_ISR 32 BOTH_EDGE (Some 7%nat) kernel_ok init = Undefined /\
  jakestering_ISR (-1) BOTH_EDGE (Some 7%nat) kernel_ok init = Undefined /\
  ~ (exists r, jakestering_ISR 32 BOTH_EDGE (Some 7%nat) kernel_ok init = Done r init).
Proof.
  split; [reflexivity|]. split; [reflexivity|].
  intros [r H]. discriminate H.
Qed.

(** C7, amended: jakestering_ISR does not check its pin argument.  For a
    pin outside 0..31 the first thing it does is the store to
    isr_functions[pin], outside the table, whose behaviour is undefined:
    no error is returned.  For a pin in 0..31 it returns 0. *)
Theorem registration_does_not_check_pin (pin : Z) (mode : edge_mode)
        (f : option callback) (e : syscalls) (s : state) :
  (~ (0 <= pin < NPINS) -> jakestering_ISR pin mode f e s = Undefined) /\
  (0 <= pin < NPINS -> wf s ->
   exists s', jakestering_ISR pin mode f e s = Done 0 s').
Proof.
  split.
  - intros Hp. unfold jakestering_ISR, store_function. unfold bind at 1.
    rewrite store_Undefined by exact Hp. reflexivity.
  - intros Hp Hwf.
    destruct (jakestering_ISR_spec pin mode f e s Hwf Hp) as (s' & Hr & _).
    exists s'. exact Hr.
Qed.

Lemma registration_does_not_check_pin_witness :
  jakestering_ISR 40 FALLING_EDGE None kernel_ok init = Undefined /\
  exists s', jakestering_ISR 25 BOTH_EDGE (Some 7%nat) kernel_ok init = Done 0 s'.
Proof.
  split.
  - apply (registration_does_not_check_pin 40 FALLING_EDGE None kernel_ok init).
    unfold NPINS; lia.
  - apply (registration_does_not_check_pin 25 BOTH_EDGE (Some 7%nat) kernel_ok init).
    + unfold NPINS; lia.
    + repeat split; reflexivity.
Defined.

(** C8, as stated, fails: the entry after registering a pin and
    unregistering it at once is not the entry before.  For pin 0,
    isr_threads[0] was 0 and is now the id of the cancelled thread 101.
    For pin 25, as main registers it, the descriptor was 0 and is -1,
    the armed flag was 0 and is 1, and isr_threads[25] is 101 too. *)
Lemma register_unregister_not_as_before :
  (isr_threads init !! 0%nat = Some 0 /\
   exists s',
     register_then_unregister 0 BOTH_EDGE (Some 7%nat) kernel_ok init = Done 0 s' /\
     isr_threads s' !! 0%nat = Some 101) /\
  (entry init 25 = Some (0, None, 0) /\
   isr_threads init !! 25%nat = Some 0 /\
   exists s',
     register_then_unregister 25 BOTH_EDGE (Some 7%nat) kernel_ok init = Done 0 s' /\
     entry s' 25 = Some (-1, None, 1) /\
     isr_threads s' !! 25%nat = Some 101).
Proof.
  split.
  - split; [reflexivity|].
    eexists. split; [vm_compute; reflexivity|]. reflexivity.
  - split; [reflexivity|]. split; [reflexivity|].
    eexists. split; [vm_compute; reflexivity|]. split; reflexivity.
Qed.

(** C8, amended: for every valid pin and edge mode, when pthread_create
    succeeds, jakestering_ISR directly followed by
    wait_for_interrupt_to_close returns 0 and leaves the entry of the pin
    with descriptor -1, callback NULL and armed flag 1.  isr_modes[pin]
    keeps the registered mode and isr_threads[pin] the id of the thread.
    When the registration obtained a positive descriptor, that
    descriptor is closed and that thread is cancelled. *)
Theorem register_then_unregister_resets_entry (pin : Z) (mode : edge_mode)
        (f : option callback) (e : syscalls) (s : state) :
  wf s -> 0 <= pin < NPINS -> create_ret e = 0 ->
  exists s',
    register_then_unregister pin mode f e s = Done 0 s' /\
    entry s' pin = Some (-1, None, 1) /\
    isr_modes s' !! Z.to_nat pin = Some (Some mode) /\
    isr_threads s' !! Z.to_nat pin = Some (new_tid e) /\
    (descriptor_obtained e s -> 0 < req_fd e ->
     (req_fd e ∉ open_fds s') /\ (new_tid e ∉ (live_threads s').*1) /\
     closed_fds (trace s') = req_fd e :: closed_fds (trace s) /\
     cancelled (trace s') = new_tid e :: cancelled (trace s)).
Proof.
  intros Hwf Hp Hcr. pose proof (index_lt pin Hp) as Hlt.
  destruct (jakestering_ISR_spec pin mode f e s Hwf Hp)
    as (s1 & Hr & Hwf1 & _ & Hmd & _ & _ & Hcf & Hcn & Hob & _ & _ & Hth & _).
  destruct (Hth Hcr) as (Hlive & Ht & _).
  destruct Hwf as (H1 & H2 & H3 & H4 & H5).
  assert (Htid : isr_threads s1 !! Z.to_nat pin = Some (new_tid e))
    by (rewrite Ht; apply list_lookup_insert_eq; lia).
  assert (Hrec : recorded_thread_live pin s1).
  { intros fd tid _ _ Htid'. rewrite Htid in Htid'. injection Htid' as <-.
    rewrite Hlive. unfold is_live. cbn. rewrite Z.eqb_refl. reflexivity. }
  destruct (close_spec pin s1 Hwf1 Hp Hrec) as (s' & Hc & _ & He & Hth' & Hmd' & Hpos).
  exists s'. split; [|split; [exact He|split; [|split]]].
  - unfold register_then_unregister, bind. rewrite Hr. exact Hc.
  - rewrite Hmd', Hmd. apply list_lookup_insert_eq. lia.
  - rewrite Hth'. exact Htid.
  - intros Hobt Hfd.
    destruct (Hob Hobt) as (Hfds & _).
    rewrite <- Hcf, <- Hcn. apply Hpos; [|exact Hfd|exact Htid].
    rewrite Hfds. apply list_lookup_insert_eq. lia.
Qed.

Lemma register_then_unregister_resets_entry_witness :
  exists s',
    register_then_unregister 25 BOTH_EDGE (Some 7%nat) kernel_ok init = Done 0 s' /\
    entry s' 25 = Some (-1, None, 1) /\
    (5 ∉ open_fds s') /\ (101 ∉ (live_threads s').*1).
Proof.
  destruct (register_then_unregister_resets_entry 25 BOTH_EDGE (Some 7%nat) kernel_ok init)
    as (s' & Hr & He & _ & _ & H).
  - repeat split; reflexivity.
  - unfold NPINS; lia.
  - reflexivity.
  - destruct H as (Hfd & Htid & _).
    + unfold descriptor_obtained; cbn; lia.
    + cbn; lia.
    + exists s'. auto.
Defined.

(** * Further properties of the interrupt code *)

(** ** The dispatch loop on any input *)

Lemma dispatch_frame_refl (pin : Z) (s : state) : wf s -> dispatch_frame pin s s.
Proof.
  intros Hwf. unfold dispatch_frame. split; [exact Hwf|]. repeat split.
Qed.

Lemma dispatch_frame_trans (pin : Z) (s1 s2 s3 : state) :
  dispatch_frame pin s1 s2 -> dispatch_frame pin s2 s3 -> dispatch_frame pin s1 s3.
Proof.
  unfold dispatch_frame.
  intros (A0 & A1 & A2 & A3 & A4 & A5 & A6 & A7 & A8 & A9 & A10 & A11)
         (B0 & B1 & B2 & B3 & B4 & B5 & B6 & B7 & B8 & B9 & B10 & B11).
  repeat split; try congruence; try apply B0.
  intros q Hq. rewrite B11, A11 by exact Hq. reflexivity.
Qed.

(** One iteration, whatever the kernel answers: the tables are accessed
    in bounds, the frame is kept, and the callback runs at most once,
    and only the one stored for the pin after a delivering cycle. *)
Lemma loop_body_any (pin : Z) (k : option cycle) (s : state) :
  wf s -> 0 <= pin < NPINS ->
  exists s', run_state (loop_body pin k s) = Some s' /\
             dispatch_frame pin s s' /\
             (calls (trace s') = calls (trace s) \/
              exists c cb, k = Some c /\ delivering c /\
                           isr_functions s !! Z.to_nat pin = Some (Some cb) /\
                           isr_function_called s' !! Z.to_nat pin = Some 0 /\
                           calls (trace s') = cb :: calls (trace s)).
Proof.
  intros Hwf Hp. pose proof (index_lt pin Hp) as Hlt.
  assert (Hwf' := Hwf). open_state s Hwf.
  destruct (wf_lookup fds pin Hfds Hp) as [fd Hfd].
  destruct (wf_lookup fns pin Hfns Hp) as [fn Hfn].
  destruct (wf_lookup cld pin Hcld Hp) as [c0 Hc0].
  unfold loop_body, wait_for_interrupt, delivering. exec.
  destruct (Z.eqb_spec fd (-1)); exec.
  { eexists. split; [reflexivity|]. split; [apply dispatch_frame_refl, Hwf'|auto]. }
  destruct k as [[pr rr id]|]; cbn.
  - destruct (Z.leb_spec pr 0); exec.
    + destruct (Z.gtb_spec pr 0); [lia|].
      destruct (pr <? 0); (eexists; split; [reflexivity|]);
        (split; [unfold dispatch_frame, wf; cbn; repeat split; auto | auto]).
    + destruct (Z.eqb_spec rr sizeof_event_data); exec.
      * destruct (Z.eqb_spec (to_int id) 1) as [E1|E1]; exec.
        -- rewrite E1. cbn. destruct fn as [cb|]; exec.
           ++ eexists. split; [reflexivity|].
              split; [unfold dispatch_frame, wf; cbn; rewrite ?length_insert;
                      repeat split; auto;
                      intros q Hq; rewrite !list_lookup_insert_ne by auto; reflexivity|].
              right. exists (mkCycle pr rr id), cb. cbn.
              rewrite list_lookup_insert_eq by (rewrite length_insert; lia).
              repeat split; auto; lia.
           ++ eexists. split; [reflexivity|].
              split; [unfold dispatch_frame, wf; cbn; rewrite ?length_insert;
                      repeat split; auto;
                      intros q Hq; rewrite !list_lookup_insert_ne by auto; reflexivity|].
              auto.
        -- destruct (Z.gtb_spec (to_int id) 0); exec.
           ++ destruct fn as [cb|]; exec.
              ** destruct (Z.eqb_spec c0 0); exec;
                   (eexists; split; [reflexivity|]);
                   (split; [unfold dispatch_frame, wf; cbn; rewrite ?length_insert;
                           repeat split; auto;
                           intros q Hq; rewrite ?list_lookup_insert_ne by auto; reflexivity|]);
                   [auto|].
                 right. exists (mkCycle pr rr id), cb. cbn.
                 rewrite list_lookup_insert_eq by lia.
                 repeat split; auto.
              ** eexists. split; [reflexivity|].
                 split; [unfold dispatch_frame, wf; cbn; repeat split; auto | auto].
           ++ destruct (to_int id <? 0); (eexists; split; [reflexivity|]);
                (split; [unfold dispatch_frame, wf; cbn; repeat split; auto | auto]).
      * eexists. split; [reflexivity|].
        split; [unfold dispatch_frame, wf; cbn; repeat split; auto | auto].
  - eexists. split; [reflexivity|].
    split; [unfold dispatch_frame, wf; cbn; repeat split; auto | auto].
Qed.

Lemma deliveringb_true (k : cycle) : delivering k -> deliveringb k = true.
Proof.
  intros (H1 & H2 & H3). unfold deliveringb.
  apply andb_true_intro; split; [apply andb_true_intro; split|]; lia.
Qed.

Arguments deliveringb : simpl never.

Lemma handler_loop_any (pin : Z) (ks : list cycle) :
  0 <= pin < NPINS ->
  forall s, wf s ->
  exists s' new,
    run_state (handler_loop pin ks s) = Some s' /\
    dispatch_frame pin s s' /\
    calls (trace s') = new ++ calls (trace s) /\
    (length new <= length (List.filter deliveringb ks))%nat /\
    Forall (fun cb => isr_functions s !! Z.to_nat pin = Some (Some cb)) new.
Proof.
  intros Hp. induction ks as [|k ks IH]; intros s Hwf.
  - destruct (loop_body_any pin None s Hwf Hp) as (s' & Hr & Hfr & [Hc | Hc]).
    + exists s', []. cbn. unfold bind.
      destruct (loop_body pin None s); cbn in *; try discriminate; auto.
    + destruct Hc as (c & cb & Hk & _). discriminate.
  - destruct (loop_body_any pin (Some k) s Hwf Hp) as (s1 & Hr & Hfr & Hc).
    assert (Hhere : exists new1,
               calls (trace s1) = new1 ++ calls (trace s) /\
               (length new1 <= length (List.filter deliveringb [k]))%nat /\
               Forall (fun cb => isr_functions s !! Z.to_nat pin = Some (Some cb)) new1).
    { destruct Hc as [Hc | (c & cb & Hk & Hd & Hfn & _ & Hc)].
      - exists []. cbn. auto with arith.
      - injection Hk as <-. exists [cb]. cbn. rewrite (deliveringb_true _ Hd). cbn.
        repeat split; auto. }
    destruct Hhere as (new1 & Hc1 & Hlen1 & Hall1).
    assert (Hstop : exists s' new,
               Some s1 = Some s' /\ dispatch_frame pin s s' /\
               calls (trace s') = new ++ calls (trace s) /\
               (length new <= length (List.filter deliveringb (k :: ks)))%nat /\
               Forall (fun cb => isr_functions s !! Z.to_nat pin = Some (Some cb)) new).
    { exists s1, new1.
      split; [reflexivity|]. split; [exact Hfr|]. split; [exact Hc1|].
      split; [|exact Hall1].
      cbn in *. destruct (deliveringb k); cbn in *; lia. }
    cbn. unfold bind at 1.
    destruct (loop_body pin (Some k) s) as [[|] s0| s0 | s0 |]; cbn in Hr; try discriminate;
      injection Hr as ->; try exact Hstop.
    destruct (IH s1 ltac:(apply Hfr)) as (s' & new & Hr' & Hfr' & Hc' & Hlen' & Hall').
    exists s', (new ++ new1). split; [exact Hr'|].
    split; [apply (dispatch_frame_trans pin s s1 s'); assumption|].
    split; [rewrite Hc', Hc1, app_assoc; reflexivity|].
    split.
    + rewrite length_app. cbn in *. destruct (deliveringb k); cbn in *; lia.
    + apply Forall_app. split; [|exact Hall1].
      destruct Hfr as (_ & _ & _ & _ & Hfn & _). rewrite Hfn in Hall'. exact Hall'.
Qed.

(** X1: a dispatch loop never accesses a table outside its bounds and,
    whatever the kernel reports, changes nothing but the trace and the
    armed flag of its own pin: no descriptor, callback, thread id, mode
    or flag of another pin, nothing opened, closed or cancelled. *)
Theorem dispatch_loop_keeps_to_its_pin (pin : Z) (ks : list cycle) (s : state) :
  wf s -> 0 <= pin < NPINS ->
  exists s', run_state (handler_loop pin ks s) = Some s' /\
             dispatch_frame pin s s' /\
             forall q : nat, q <> Z.to_nat pin -> row s' q = row s q.
Proof.
  intros Hwf Hp.
  destruct (handler_loop_any pin ks Hp s Hwf) as (s' & new & Hr & Hfr & _).
  exists s'. split; [exact Hr|]. split; [exact Hfr|].
  destruct Hfr as (_ & _ & _ & H1 & H2 & H3 & H4 & _ & _ & _ & _ & H5).
  intros q Hq. unfold row. rewrite H1, H2, H3, H4, (H5 q Hq). reflexivity.
Qed.

Lemma dispatch_loop_keeps_to_its_pin_witness :
  exists s', run_state (handler_loop 25 [edge_event; half_record; falling_event] registered25)
             = Some s' /\
             row s' 0 = row registered25 0.
Proof.
  destruct (dispatch_loop_keeps_to_its_pin 25 [edge_event; half_record; falling_event] registered25)
    as (s' & Hr & _ & H).
  - repeat split; reflexivity.
  - unfold NPINS; lia.
  - exists s'. split; [exact Hr|]. apply H. cbn. lia.
Defined.

(** X2: over any sequence of poll cycles the loop runs the callback at
    most once per cycle that delivered a whole record with a positive
    identifier, and every callback it runs is the one stored for its
    pin. *)
Theorem dispatch_loop_calls_bounded (pin : Z) (ks : list cycle) (s : state) :
  wf s -> 0 <= pin < NPINS ->
  exists s' new,
    run_state (handler_loop pin ks s) = Some s' /\
    calls (trace s') = new ++ calls (trace s) /\
    (length new <= length (List.filter deliveringb ks))%nat /\
    Forall (fun cb => isr_functions s !! Z.to_nat pin = Some (Some cb)) new.
Proof.
  intros Hwf Hp.
  destruct (handler_loop_any pin ks Hp s Hwf) as (s' & new & Hr & _ & Hc & Hl & Ha).
  exists s', new. auto.
Qed.

Lemma dispatch_loop_calls_bounded_witness :
  exists s' new,
    run_state (handler_loop 25 [half_record; edge_event; half_record] registered25) = Some s' /\
    calls (trace s') = new ++ calls (trace registered25) /\
    (length new <= 1)%nat.
Proof.
  destruct (dispatch_loop_calls_bounded 25 [half_record; edge_event; half_record] registered25)
    as (s' & new & Hr & Hc & Hl & _).
  - repeat split; reflexivity.
  - unfold NPINS; lia.
  - exists s', new. auto.
Defined.

(** X3: when the function pointer stored for the pin is NULL, no
    sequence of events makes the loop run anything. *)
Theorem null_callback_never_called (pin : Z) (ks : list cycle) (s : state) :
  wf s -> 0 <= pin < NPINS ->
  isr_functions s !! Z.to_nat pin = Some None ->
  exists s', run_state (handler_loop pin ks s) = Some s' /\
             calls (trace s') = calls (trace s).
Proof.
  intros Hwf Hp Hnull.
  destruct (handler_loop_any pin ks Hp s Hwf) as (s' & new & Hr & _ & Hc & _ & Ha).
  exists s'. split; [exact Hr|].
  destruct new as [|cb new]; [exact Hc|].
  apply Forall_cons in Ha. destruct Ha as [Ha _]. congruence.
Qed.

Lemma null_callback_never_called_witness :
  exists s', run_state (handler_loop 3 [edge_event; edge_event] registered25) = Some s' /\
             calls (trace s') = calls (trace registered25).
Proof.
  apply (null_callback_never_called 3 [edge_event; edge_event] registered25).
  - repeat split; reflexivity.
  - unfold NPINS; lia.
  - reflexivity.
Defined.

(** ** Events with another identifier *)

Lemma loop_body_other (pin fd c : Z) (cb : callback) (k : cycle) (s : state) :
  0 <= pin < NPINS -> registered pin fd cb s ->
  isr_function_called s !! Z.to_nat pin = Some c -> other_event k ->
  exists s2,
    loop_body pin (Some k) s = Done true s2 /\
    registered pin fd cb s2 /\
    isr_function_called s2 !! Z.to_nat pin = Some 0 /\
    calls (trace s2) = (if c =? 0 then [] else [cb]) ++ calls (trace s).
Proof.
  intros Hp (Hwf & Hfd & Hne & Hfn) Hc (Hpoll & Hread & Hid).
  pose proof (index_lt pin Hp) as Hlt.
  destruct k as [pr rr id]. open_state s Hwf. subst rr.
  unfold loop_body, wait_for_interrupt. exec.
  destruct (Z.eqb_spec fd (-1)); [contradiction|].
  destruct (Z.leb_spec pr 0); [lia|]. exec.
  destruct (Z.eqb_spec (to_int id) 1); [lia|]. exec.
  destruct (Z.gtb_spec (to_int id) 0); [|lia]. exec.
  destruct (Z.eqb_spec c 0) as [->|Hc0]; exec;
    (eexists; split; [reflexivity|]); unfold registered, wf; cbn;
    rewrite ?length_insert, ?list_lookup_insert_eq by lia; repeat split; auto.
Qed.

Lemma handler_loop_other (pin fd : Z) (cb : callback) (ks : list cycle) :
  0 <= pin < NPINS -> Forall other_event ks ->
  forall s c, registered pin fd cb s ->
  isr_function_called s !! Z.to_nat pin = Some c ->
  exists s',
    handler_loop pin ks s = Parked s' /\
    calls (trace s') =
    match ks with
    | [] => []
    | _ :: _ => if c =? 0 then [] else [cb]
    end ++ calls (trace s).
Proof.
  intros Hp Hks. induction Hks as [|k ks Hk Hks IH]; intros s c Hreg Hc.
  - destruct Hreg as (_ & Hfd & Hne & _). eexists. split.
    + cbn. unfold bind. rewrite (loop_body_idle pin fd Hp Hne) by exact Hfd. reflexivity.
    + reflexivity.
  - destruct (loop_body_other pin fd c cb k s Hp Hreg Hc Hk) as (s2 & Hb & Hreg2 & Hc2 & Ht).
    destruct (IH s2 0 Hreg2 Hc2) as (s' & Hl & Hcalls).
    exists s'. split.
    + cbn. unfold bind at 1. rewrite Hb. exact Hl.
    + rewrite Hcalls, Ht. destruct ks; reflexivity.
Qed.

(** X4: only identifier 1 sets the armed flag again.  On a registered
    pin, a run of whole records with another positive identifier (2, a
    falling edge, say) runs the callback once, for the first of them,
    when the flag was still set, and not at all when it was clear. *)
Theorem other_events_delivered_at_most_once (pin fd c : Z) (cb : callback)
        (ks : list cycle) (s : state) :
  wf s -> 0 <= pin < NPINS ->
  pin_FDs s !! Z.to_nat pin = Some fd -> fd <> -1 ->
  isr_functions s !! Z.to_nat pin = Some (Some cb) ->
  isr_function_called s !! Z.to_nat pin = Some c ->
  Forall other_event ks ->
  exists s',
    handler_loop pin ks s = Parked s' /\
    calls (trace s') =
    match ks with
    | [] => []
    | _ :: _ => if c =? 0 then [] else [cb]
    end ++ calls (trace s).
Proof.
  intros Hwf Hp Hfd Hne Hfn Hc Hks.
  apply (handler_loop_other pin fd cb ks Hp Hks s c); [|exact Hc].
  unfold registered. tauto.
Qed.

Lemma other_events_delivered_at_most_once_witness :
  exists s',
    handler_loop 25 [falling_event; falling_event; falling_event] registered25 = Parked s' /\
    calls (trace s') = [7%nat].
Proof.
  apply (other_events_delivered_at_most_once 25 5 1 7%nat
           [falling_event; falling_event; falling_event] registered25).
  - repeat split; reflexivity.
  - unfold NPINS; lia.
  - reflexivity.
  - lia.
  - reflexivity.
  - reflexivity.
  - repeat constructor.
Defined.

(** ** A failing poll *)

Lemma loop_body_poll_error (pin fd : Z) (k : cycle) (s : state) :
  0 <= pin < NPINS -> pin_FDs s !! Z.to_nat pin = Some fd -> fd <> -1 ->
  poll_ret k < 0 ->
  loop_body pin (Some k) s = Done false (set_trace (EvPoll fd (-1) :: trace s) s).
Proof.
  intros Hp Hfd Hne Hpoll. destruct k as [pr rr id]. cbn in *.
  unfold loop_body, wait_for_interrupt. exec.
  destruct (Z.eqb_spec fd (-1)); [contradiction|].
  destruct (Z.leb_spec pr 0); [|lia]. cbn.
  destruct (Z.gtb_spec pr 0); [lia|].
  destruct (Z.ltb_spec pr 0); [|lia]. reflexivity.
Qed.

Lemma is_live_iff (tid : Z) (l : list (Z * Z)) :
  is_live tid l = true <-> tid ∈ l.*1.
Proof.
  unfold is_live. induction l as [|t l IH]; cbn.
  - split; [discriminate | intros H; apply elem_of_nil in H; contradiction].
  - rewrite orb_true_iff, elem_of_cons, IH, Z.eqb_eq. intuition congruence.
Qed.

Lemma is_live_remove_self (tid : Z) (l : list (Z * Z)) :
  is_live tid (remove_thread tid l) = false.
Proof.
  destruct (is_live tid (remove_thread tid l)) eqn:H; [|reflexivity].
  apply is_live_iff in H. exfalso. exact (not_in_remove_thread tid l H).
Qed.

(** The teardown run by the thread that is recorded for the pin: it
    cancels itself and ends at close. *)
Lemma own_teardown (self pin fd : Z) (s : state) :
  wf s -> 0 <= pin < NPINS ->
  pin_FDs s !! Z.to_nat pin = Some fd -> 0 < fd ->
  isr_threads s !! Z.to_nat pin = Some self ->
  is_live self (live_threads s) = true ->
  wait_for_interrupt_to_close_from (Some self) pin s
  = Ended (set_live_threads (remove_thread self (live_threads s))
             (set_trace (EvCancel self 0 :: trace s) s)).
Proof.
  intros Hwf Hp Hfd Hpos Htid Hlive. open_state s Hwf.
  unfold pthread_cancel. exec.
  destruct (Z.gtb_spec fd 0); [|lia]. exec.
  rewrite Hlive. exec. rewrite is_live_remove_self. reflexivity.
Qed.

(** X5: a failing poll ends the thread of the pin, but not its
    teardown.  After a negative poll result the thread runs no callback
    and enters wait_for_interrupt_to_close; the thread recorded for the
    pin being the thread itself, pthread_cancel cancels the caller, and
    it ends at close, the next cancellation point.  The descriptor is
    not closed and stays stored, with the callback, in the entry of the
    pin. *)
Theorem poll_error_ends_thread (self pin fd : Z) (k : cycle)
        (ks : list cycle) (s : state) :
  wf s -> 0 <= pin < NPINS ->
  pin_FDs s !! Z.to_nat pin = Some fd -> 0 < fd ->
  isr_threads s !! Z.to_nat pin = Some self ->
  is_live self (live_threads s) = true ->
  poll_ret k < 0 ->
  exists s',
    handler_body self pin (k :: ks) s = Ended s' /\
    entry s' pin = entry s pin /\
    open_fds s' = open_fds s /\
    calls (trace s') = calls (trace s) /\
    closed_fds (trace s') = closed_fds (trace s) /\
    cancelled (trace s') = self :: cancelled (trace s) /\
    (self ∉ (live_threads s').*1).
Proof.
  intros Hwf Hp Hfd Hpos Htid Hlive Hpoll.
  assert (Hne : fd <> -1) by lia.
  set (s1 := set_trace (EvPoll fd (-1) :: trace s) s).
  assert (Hwf1 : wf s1) by (destruct s; exact Hwf).
  assert (Hfd1 : pin_FDs s1 !! Z.to_nat pin = Some fd) by (destruct s; exact Hfd).
  assert (Htid1 : isr_threads s1 !! Z.to_nat pin = Some self) by (destruct s; exact Htid).
  assert (Hlive1 : is_live self (live_threads s1) = true) by (destruct s; exact Hlive).
  eexists. split.
  - unfold handler_body. cbn [handler_loop]. unfold bind.
    rewrite (loop_body_poll_error pin fd k s Hp Hfd Hne Hpoll).
    unfold ret. cbv beta iota. fold s1.
    rewrite (own_teardown self pin fd s1 Hwf1 Hp Hfd1 Hpos Htid1 Hlive1).
    reflexivity.
  - destruct s. cbn.
    do 5 (split; [reflexivity|]). apply not_in_remove_thread.
Qed.

Lemma poll_error_ends_thread_witness :
  exists s',
    handler_body 101 25 [mkCycle (-1) 0 0; edge_event] registered25 = Ended s' /\
    entry s' 25 = Some (5, Some 7%nat, 1) /\
    open_fds s' = [5; 3] /\
    closed_fds (trace s') = [].
Proof.
  destruct (poll_error_ends_thread 101 25 5 (mkCycle (-1) 0 0) [edge_event] registered25)
    as (s' & Hr & He & Ho & _ & Hcf & _).
  - repeat split; reflexivity.
  - unfold NPINS; lia.
  - reflexivity.
  - lia.
  - reflexivity.
  - reflexivity.
  - cbn; lia.
  - exists s'. auto.
Defined.

(** ** Teardown, again and elsewhere *)

Lemma entry_lookups (s : state) (pin fd c : Z) (f : option callback) :
  0 <= pin < NPINS -> entry s pin = Some (fd, f, c) ->
  pin_FDs s !! Z.to_nat pin = Some fd /\
  isr_functions s !! Z.to_nat pin = Some f /\
  isr_function_called s !! Z.to_nat pin = Some c.
Proof.
  intros Hp. unfold entry. rewrite (index_Some pin Hp). cbn.
  destruct (pin_FDs s !! Z.to_nat pin); cbn; [|discriminate].
  destruct (isr_functions s !! Z.to_nat pin); cbn; [|discriminate].
  destruct (isr_function_called s !! Z.to_nat pin); cbn; [|discriminate].
  intros H. injection H as -> -> ->. auto.
Qed.

(** X6: the teardown is idempotent, and it ends polling on the pin.
    When the thread recorded for a positive descriptor lives, a call of
    wait_for_interrupt_to_close returns 0; a second call then returns 0
    and changes nothing at all (no cancel, no close, no new event), and
    every later wait_for_interrupt on the pin returns -2 at once. *)
Theorem teardown_idempotent (pin : Z) (s : state) :
  wf s -> 0 <= pin < NPINS -> recorded_thread_live pin s ->
  exists s1,
    wait_for_interrupt_to_close pin s = Done 0 s1 /\
    wait_for_interrupt_to_close pin s1 = Done 0 s1 /\
    forall ms k, wait_for_interrupt pin ms k s1 = Done (-2) s1.
Proof.
  intros Hwf Hp Hrec.
  destruct (close_spec pin s Hwf Hp Hrec) as (s1 & Hc & Hwf1 & He & _).
  destruct (entry_lookups s1 pin (-1) 1 None Hp He) as (Hfd & Hfn & Hcl).
  exists s1. split; [exact Hc|]. split.
  - rewrite (close_not_positive pin (-1) s1 Hwf1 Hp Hfd) by lia.
    rewrite !list_insert_id by assumption. destruct s1. reflexivity.
  - intros ms k. apply wait_unset; assumption.
Qed.

Lemma teardown_idempotent_witness :
  exists s1,
    wait_for_interrupt_to_close 25 registered25 = Done 0 s1 /\
    wait_for_interrupt_to_close 25 s1 = Done 0 s1 /\
    wait_for_interrupt 25 (-1) (Some edge_event) s1 = Done (-2) s1.
Proof.
  destruct (teardown_idempotent 25 registered25) as (s1 & H1 & H2 & H3).
  - repeat split; reflexivity.
  - unfold NPINS; lia.
  - intros fd tid _ _ Htid. injection Htid as <-. reflexivity.
  - exists s1. auto.
Defined.

Lemma in_remove_fd (fd x : Z) (l : list Z) : x ∈ l -> x <> fd -> x ∈ remove_fd fd l.
Proof. intros H1 H2. unfold remove_fd. apply list_elem_of_filter. auto. Qed.

Lemma in_remove_thread (tid : Z) (t : Z * Z) (l : list (Z * Z)) :
  t ∈ l -> t.1 <> tid -> t ∈ remove_thread tid l.
Proof. intros H1 H2. unfold remove_thread. apply list_elem_of_filter. auto. Qed.

(** X7: tearing down one pin leaves the others alone.  When the thread
    recorded for a positive descriptor lives, the call returns 0; the
    rows of the tables at every other index, pin_pass and chip_FD are
    unchanged; the only descriptor that can be closed is the one stored
    for the pin and the only thread that can be cancelled is the one
    recorded for it. *)
Theorem teardown_keeps_other_pins (pin : Z) (s : state) :
  wf s -> 0 <= pin < NPINS -> recorded_thread_live pin s ->
  exists s',
    wait_for_interrupt_to_close pin s = Done 0 s' /\
    pin_pass s' = pin_pass s /\ chip_FD s' = chip_FD s /\
    (forall q : nat, q <> Z.to_nat pin -> row s' q = row s q) /\
    (forall x, x ∈ open_fds s -> pin_FDs s !! Z.to_nat pin <> Some x ->
               x ∈ open_fds s') /\
    (forall t, t ∈ live_threads s -> isr_threads s !! Z.to_nat pin <> Some t.1 ->
               t ∈ live_threads s').
Proof.
  intros Hwf Hp Hrec. unfold recorded_thread_live in Hrec. open_state s Hwf.
  destruct (wf_lookup fds pin Hfds Hp) as [fd Hfd].
  destruct (wf_lookup ths pin Hths Hp) as [tid Htid].
  unfold pthread_cancel, row. exec.
  destruct (Z.gtb_spec fd 0); exec.
  - rewrite (Hrec fd tid Hfd ltac:(lia) Htid). exec.
    eexists; split; [reflexivity|]. cbn.
    split; [reflexivity|]. split; [reflexivity|].
    split; [intros q Hq; rewrite !list_lookup_insert_ne by auto; reflexivity|].
    split; [intros x Hx Hn; apply in_remove_fd; congruence|].
    intros t Ht Hn. apply in_remove_thread; congruence.
  - eexists; split; [reflexivity|]. cbn.
    split; [reflexivity|]. split; [reflexivity|].
    split; [intros q Hq; rewrite !list_lookup_insert_ne by auto; reflexivity|].
    split; auto.
Qed.

Lemma teardown_keeps_other_pins_witness :
  exists s',
    wait_for_interrupt_to_close 25 registered25 = Done 0 s' /\
    row s' 0 = row registered25 0 /\
    3 ∈ open_fds s'.
Proof.
  destruct (teardown_keeps_other_pins 25 registered25) as (s' & Hr & _ & _ & Hrow & Hfd & _).
  - repeat split; reflexivity.
  - unfold NPINS; lia.
  - intros fd tid _ _ Htid. injection Htid as <-. reflexivity.
  - exists s'. split; [exact Hr|]. split.
    + apply Hrow. cbn. lia.
    + apply Hfd; [|discriminate].
      replace (open_fds registered25) with [5; 3] by reflexivity.
      rewrite !elem_of_cons. auto.
Defined.

(** ** Registration, elsewhere *)

(** X8: registering one pin leaves the rows of all other pins as they
    were, in all five tables, whatever the kernel answers. *)
Theorem registration_keeps_other_pins (pin : Z) (mode : edge_mode)
        (f : option callback) (e : syscalls) (s : state) :
  wf s -> 0 <= pin < NPINS ->
  exists s',
    jakestering_ISR pin mode f e s = Done 0 s' /\
    forall q : nat, q <> Z.to_nat pin -> row s' q = row s q.
Proof.
  intros Hwf Hp.
  destruct (jakestering_ISR_spec pin mode f e s Hwf Hp)
    as (s' & Hr & _ & Hfn & Hmd & Hcl & _ & _ & _ & Hob & Hno & _ & Hth & Hnt).
  exists s'. split; [exact Hr|]. intros q Hq. unfold row.
  rewrite Hfn, Hmd, Hcl, !list_lookup_insert_ne by auto.
  assert (H1 : pin_FDs s' !! q = pin_FDs s !! q).
  { destruct (descriptor_obtained_dec e s) as [Hy|Hy].
    - destruct (Hob Hy) as [-> _]. apply list_lookup_insert_ne. auto.
    - rewrite (Hno Hy). reflexivity. }
  assert (H2 : isr_threads s' !! q = isr_threads s !! q).
  { destruct (Z.eq_dec (create_ret e) 0) as [Hy|Hy].
    - destruct (Hth Hy) as (_ & -> & _). apply list_lookup_insert_ne. auto.
    - destruct (Hnt Hy) as (_ & -> & _). apply list_lookup_insert_ne. auto. }
  rewrite H1, H2. reflexivity.
Qed.

Lemma registration_keeps_other_pins_witness :
  exists s',
    jakestering_ISR 4 RISING_EDGE (Some 8%nat) kernel_ok_again registered25 = Done 0 s' /\
    row s' 25 = row registered25 25.
Proof.
  destruct (registration_keeps_other_pins 4 RISING_EDGE (Some 8%nat) kernel_ok_again registered25)
    as (s' & Hr & H).
  - repeat split; reflexivity.
  - unfold NPINS; lia.
  - exists s'. split; [exact Hr|]. apply H. cbn. lia.
Defined.

(** X9: when pthread_create fails, jakestering_ISR still returns 0.  No
    thread is added, so none serves the pin that did not before, and the
    thread ids recorded for the other pins are as they were (nothing is
    said of isr_threads[pin], which pthread_create was handed); pin_pass
    keeps the pin (nobody takes the token), the callback stays stored,
    and a descriptor that was obtained stays open and stored. *)
Theorem thread_creation_failure_ignored (pin : Z) (mode : edge_mode)
        (f : option callback) (e : syscalls) (s : state) :
  wf s -> 0 <= pin < NPINS -> create_ret e <> 0 ->
  exists s',
    jakestering_ISR pin mode f e s = Done 0 s' /\
    live_threads s' = live_threads s /\
    threads_of pin s' = threads_of pin s /\
    (forall q : nat, q <> Z.to_nat pin -> isr_threads s' !! q = isr_threads s !! q) /\
    pin_pass s' = pin /\
    isr_functions s' !! Z.to_nat pin = Some f /\
    (descriptor_obtained e s ->
     pin_FDs s' !! Z.to_nat pin = Some (req_fd e) /\ req_fd e ∈ open_fds s').
Proof.
  intros Hwf Hp Hcr. pose proof (index_lt pin Hp) as Hlt.
  destruct (jakestering_ISR_spec pin mode f e s Hwf Hp)
    as (s' & Hr & _ & Hfn & _ & _ & _ & _ & _ & Hob & _ & _ & _ & Hnt).
  destruct (Hnt Hcr) as (Hl & Ht & Hpp).
  destruct Hwf as (H1 & H2 & _).
  exists s'. split; [exact Hr|]. split; [exact Hl|].
  split; [unfold threads_of; rewrite Hl; reflexivity|].
  split; [intros q Hq; rewrite Ht; apply list_lookup_insert_ne; auto|].
  split; [exact Hpp|].
  split; [rewrite Hfn; apply list_lookup_insert_eq; lia|].
  intros Hy. destruct (Hob Hy) as [-> Hin].
  split; [apply list_lookup_insert_eq; lia | exact Hin].
Qed.

Lemma thread_creation_failure_ignored_witness :
  exists s',
    jakestering_ISR 25 BOTH_EDGE (Some 7%nat) (mkSyscalls 3 0 5 0 0 11 0) init = Done 0 s' /\
    live_threads s' = [] /\ pin_pass s' = 25 /\
    pin_FDs s' !! 25%nat = Some 5.
Proof.
  destruct (thread_creation_failure_ignored 25 BOTH_EDGE (Some 7%nat)
              (mkSyscalls 3 0 5 0 0 11 0) init) as (s' & Hr & Hl & _ & _ & Hpp & _ & H).
  - repeat split; reflexivity.
  - unfold NPINS; lia.
  - cbn; lia.
  - exists s'. split; [exact Hr|]. split; [exact Hl|]. split; [exact Hpp|].
    apply H. unfold descriptor_obtained; cbn; lia.
Defined.

(** ** The chip device *)

Lemma interrupt_init_chip (pin : Z) (mode : edge_mode) (e : syscalls) (s : state) :
  wf s -> 0 <= pin < NPINS ->
  exists r s',
    interrupt_init pin mode e s = Done r s' /\
    wf s' /\
    (0 <= chip_FD s ->
       chip_FD s' = chip_FD s /\ chip_opens (trace s') = chip_opens (trace s)) /\
    (chip_FD s < 0 ->
       chip_FD s' = open_ret e /\
       chip_opens (trace s') = open_ret e :: chip_opens (trace s)).
Proof.
  intros Hwf Hp. open_state s Hwf. destruct e as [op io rfd gfl sfl cr tid].
  unfold interrupt_init. exec.
  destruct (Z.ltb_spec chip 0); exec;
    [destruct (Z.ltb_spec op 0); exec|];
    try (destruct (Z.eqb_spec io 0); exec; [destruct (Z.eqb_spec sfl 0); exec|]);
    do 2 eexists; (split; [reflexivity|]); unfold wf; cbn;
    rewrite ?length_insert;
    (split; [repeat split; assumption|]);
    split; intros Hx; first [lia | split; reflexivity].
Qed.

Lemma jakestering_ISR_chip (pin : Z) (mode : edge_mode) (f : option callback)
      (e : syscalls) (s : state) :
  wf s -> 0 <= pin < NPINS ->
  exists s',
    jakestering_ISR pin mode f e s = Done 0 s' /\
    (0 <= chip_FD s ->
       chip_FD s' = chip_FD s /\ chip_opens (trace s') = chip_opens (trace s)) /\
    (chip_FD s < 0 ->
       chip_FD s' = open_ret e /\
       chip_opens (trace s') = open_ret e :: chip_opens (trace s)).
Proof.
  intros Hwf Hp. open_state s Hwf.
  unfold jakestering_ISR, thread_started, handler_entry. exec.
  match goal with
  | |- context [interrupt_init ?p ?m ?e0 ?st] =>
      destruct (interrupt_init_chip p m e0 st) as (r & s1 & Hi & Hwf1 & Hge & Hlt);
      [ unfold wf; cbn; rewrite ?length_insert; auto | exact Hp | rewrite Hi ]
  end.
  open_next_state s1 Hwf1.
  destruct (Z.ltb_spec r 0); exec;
    (destruct (Z.eqb_spec (create_ret e) 0); exec);
    (eexists; split; [reflexivity|]); cbn; split; assumption.
Qed.

(** X10: the chip device is opened only while chip_FD is negative.  A
    registration that finds chip_FD non-negative makes no open and leaves
    chip_FD alone; one that finds it negative makes exactly one open and
    stores its result, so that a failed open is tried again by the next
    registration and a successful one is never repeated. *)
Theorem chip_opened_only_when_unset (pin : Z) (mode : edge_mode)
        (f : option callback) (e : syscalls) (s : state) :
  wf s -> 0 <= pin < NPINS ->
  exists s',
    jakestering_ISR pin mode f e s = Done 0 s' /\
    (0 <= chip_FD s ->
       chip_FD s' = chip_FD s /\ chip_opens (trace s') = chip_opens (trace s)) /\
    (chip_FD s < 0 ->
       chip_FD s' = open_ret e /\
       chip_opens (trace s') = open_ret e :: chip_opens (trace s)).
Proof. intros Hwf Hp. apply jakestering_ISR_chip; assumption. Qed.

Lemma chip_opened_only_when_unset_witness :
  exists s',
    jakestering_ISR 4 RISING_EDGE (Some 8%nat) kernel_ok_again registered25 = Done 0 s' /\
    chip_FD s' = 3 /\ chip_opens (trace s') = [3].
Proof.
  destruct (chip_opened_only_when_unset 4 RISING_EDGE (Some 8%nat) kernel_ok_again registered25)
    as (s' & Hr & H & _).
  - repeat split; reflexivity.
  - unfold NPINS; lia.
  - exists s'. split; [exact Hr|]. apply H.
    replace (chip_FD registered25) with 3 by reflexivity. lia.
Defined.

(** * The GPIO helpers *)

(** ** Arithmetic of the helpers *)

Lemma to_uint_small z : 0 <= z < 2 ^ 32 -> to_uint z = z.
Proof. intros H. unfold to_uint. apply Z.mod_small. exact H. Qed.

Lemma shl_Some a n : 0 <= a -> 0 <= n < 32 -> a * 2 ^ n < 2 ^ 31 -> shl a n = Some (a * 2 ^ n).
Proof.
  intros Ha Hn Hlt. unfold shl. rewrite Z.shiftl_mul_pow2 by lia.
  destruct (Z.leb_spec 0 a); [|lia]. destruct (Z.leb_spec 0 n); [|lia].
  destruct (Z.ltb_spec n 32); [|lia]. destruct (Z.ltb_spec (a * 2 ^ n) (2 ^ 31)); [|lia].
  reflexivity.
Qed.

Lemma land_pow2 v k : 0 <= k -> Z.land v (2 ^ k) = if Z.testbit v k then 2 ^ k else 0.
Proof.
  intros Hk. apply Z.bits_inj'. intros n Hn.
  rewrite Z.land_spec, Z.pow2_bits_eqb by lia.
  destruct (Z.eqb_spec k n) as [->|Hne].
  - destruct (Z.testbit v n); [rewrite Z.pow2_bits_true by lia; reflexivity | rewrite Z.bits_0; reflexivity].
  - rewrite andb_false_r. destruct (Z.testbit v k); [rewrite Z.pow2_bits_false by lia; reflexivity | rewrite Z.bits_0; reflexivity].
Qed.

Lemma mod_pow2_succ v k : 0 <= k ->
  v mod 2 ^ (k + 1) = v mod 2 ^ k + (if Z.testbit v k then 2 ^ k else 0).
Proof.
  intros Hk. rewrite Z.pow_add_r, Z.pow_1_r by lia.
  rewrite Z.rem_mul_r by lia.
  rewrite <- Z.testbit_spec' by lia.
  destruct (Z.testbit v k); cbn; lia.
Qed.

Lemma lor_high a n : 0 <= n -> 0 <= a < 2 ^ n -> Z.lor a (2 ^ n) = a + 2 ^ n.
Proof.
  intros Hn Ha. rewrite <- Z.lxor_lor.
  - symmetry. rewrite Z.add_comm. rewrite <- (Z.mul_1_l (2^n)). 
    rewrite <- Z.shiftl_mul_pow2 by lia. 
    rewrite Z.add_nocarry_lxor; [apply Z.lxor_comm|].
    apply Z.bits_inj'. intros m Hm. rewrite Z.land_spec, Z.bits_0.
    rewrite Z.shiftl_mul_pow2, Z.mul_1_l by lia.
    rewrite Z.pow2_bits_eqb by lia.
    destruct (Z.eqb_spec n m) as [->|]; [|reflexivity].
    rewrite andb_true_l. 
    destruct (Z.eq_dec a 0) as [->|]; [apply Z.bits_0|].
    apply Z.bits_above_log2; [lia|]. apply Z.log2_lt_pow2; lia.
  - apply Z.bits_inj'. intros m Hm. rewrite Z.land_spec, Z.bits_0.
    rewrite Z.pow2_bits_eqb by lia.
    destruct (Z.eqb_spec n m) as [->|]; [|apply andb_false_r].
    rewrite andb_true_r.
    destruct (Z.eq_dec a 0) as [->|]; [apply Z.bits_0|].
    apply Z.bits_above_log2; [lia|]. apply Z.log2_lt_pow2; lia.
Qed.

(** The masks after [k] of the iterations, and so after all of them. *)
Lemma write_byte_loop_spec (value start : Z) (n : nat) :
  0 <= start ->
  forall k pinSet pinClr,
    0 <= k -> start + k + Z.of_nat n <= 31 -> k + Z.of_nat n <= 30 ->
    pinSet = (value mod 2 ^ k) * 2 ^ start ->
    pinClr = (2 ^ k - 1 - value mod 2 ^ k) * 2 ^ start ->
    write_byte_loop n value (start + k) (2 ^ k) pinSet pinClr
    = Some ((value mod 2 ^ (k + Z.of_nat n)) * 2 ^ start,
            (2 ^ (k + Z.of_nat n) - 1 - value mod 2 ^ (k + Z.of_nat n)) * 2 ^ start).
Proof.
  intros Hs. induction n as [|n IH]; intros k pinSet pinClr Hk Hi Hm -> ->.
  - cbn [write_byte_loop]. rewrite Z.add_0_r. reflexivity.
  - cbn [write_byte_loop].
    assert (Hp : 0 < 2 ^ k) by (apply Z.pow_pos_nonneg; lia).
    assert (Hq : 0 < 2 ^ start) by (apply Z.pow_pos_nonneg; lia).
    assert (Hmod : 0 <= value mod 2 ^ k < 2 ^ k) by (apply Z.mod_pos_bound; lia).
    assert (Hpq : 2 ^ (start + k) = 2 ^ k * 2 ^ start) by (rewrite Z.pow_add_r by lia; ring).
    assert (Hbit : 2 ^ (start + k) < 2 ^ 31) by (apply Z.pow_lt_mono_r; lia).
    assert (Hmask : 2 ^ k * 2 ^ 1 < 2 ^ 31).
    { rewrite <- Z.pow_add_r by lia. apply Z.pow_lt_mono_r; lia. }
    rewrite (shl_Some 1 (start + k)) by lia. cbn [mbind option_bind].
    rewrite (shl_Some (2 ^ k) 1) by lia.
    rewrite Z.mul_1_l, to_uint_small by lia.
    rewrite land_pow2 by lia.
    replace (2 ^ k * 2 ^ 1) with (2 ^ (k + 1)) by (rewrite Z.pow_add_r by lia; reflexivity).
    replace (start + k + 1) with (start + (k + 1)) by ring.
    replace (k + Z.of_nat (S n)) with ((k + 1) + Z.of_nat n) by lia.
    pose proof (mod_pow2_succ value k Hk) as Hstep.
    assert (Hp1 : 2 ^ (k + 1) = 2 * 2 ^ k) by (rewrite Z.pow_add_r by lia; ring).
    destruct (Z.testbit value k).
    + destruct (Z.eqb_spec (2 ^ k) 0); [lia|]. cbn [mbind option_bind].
      apply IH; [lia | lia | lia | |].
      * rewrite lor_high by nia. rewrite Hstep, Hpq. ring.
      * rewrite Hstep, Hp1. ring.
    + rewrite Z.eqb_refl. cbn [mbind option_bind].
      apply IH; [lia | lia | lia | |].
      * rewrite Hstep. ring.
      * rewrite lor_high by nia. rewrite Hstep, Hpq, Hp1. ring.
Qed.

Lemma write_byte_loop_8 (value start : Z) :
  0 <= start <= 23 ->
  write_byte_loop 8 value start 1 0 0
  = Some ((value mod 256) * 2 ^ start, (255 - value mod 256) * 2 ^ start).
Proof.
  intros Hs.
  pose proof (write_byte_loop_spec value start 8 ltac:(lia) 0 0 0) as H.
  replace (start + 0) with start in H by ring.
  change (2 ^ 0) with 1 in H. change (0 + Z.of_nat 8) with 8 in H.
  change (2 ^ 8) with 256 in H. change (256 - 1) with 255 in H.
  apply H; try lia; rewrite Z.mod_1_r; ring.
Qed.

Lemma land_complement_byte (m : Z) : 0 <= m < 256 -> Z.land m (255 - m) = 0.
Proof.
  intros Hm.
  assert (H : forallb (fun n => Z.land (Z.of_nat n) (255 - Z.of_nat n) =? 0) (seq 0 256) = true)
    by (vm_compute; reflexivity).
  rewrite forallb_forall in H.
  specialize (H (Z.to_nat m)). rewrite Z2Nat.id in H by lia.
  apply Z.eqb_eq, H. apply in_seq. lia.
Qed.

Lemma delay_micros (ms : Z) :
  0 <= ms < 2 ^ 31 ->
  micros (delay ms) = 1000 * (if ms mod 1000 =? 0 then ms else ms mod 1000).
Proof.
  intros Hms. unfold delay.
  rewrite Z.rem_mod_nonneg, Z.quot_div_nonneg by lia.
  assert (Hm : 0 <= ms mod 1000 < 1000) by (apply Z.mod_pos_bound; lia).
  assert (Hd : 0 <= ms / 1000 < 2 ^ 31).
  { split; [apply Z.div_pos; lia|]. apply Z.div_lt_upper_bound; lia. }
  pose proof (Z.div_mod ms 1000 ltac:(lia)) as Hdm.
  destruct (Z.eqb_spec (ms mod 1000) 0) as [H0|H0]; cbn [micros foldr];
    rewrite to_uint_small by lia; lia.
Qed.

(** X11: delay sleeps the time it is asked for only when that is less
    than a second or a whole number of seconds.  For any other value the
    whole seconds are dropped and only the remainder is slept: delay 1500
    sleeps half a second. *)
Theorem delay_drops_whole_seconds (ms : Z) :
  0 <= ms < 2 ^ 31 ->
  micros (delay ms) = 1000 * (if ms mod 1000 =? 0 then ms else ms mod 1000) /\
  (micros (delay ms) = 1000 * ms <-> ms < 1000 \/ ms mod 1000 = 0).
Proof.
  intros Hms. pose proof (delay_micros ms Hms) as H. split; [exact H|].
  rewrite H.
  assert (Hm : 0 <= ms mod 1000 < 1000) by (apply Z.mod_pos_bound; lia).
  destruct (Z.eqb_spec (ms mod 1000) 0) as [H0|H0].
  - split; [auto | reflexivity].
  - split.
    + intros He. left. lia.
    + intros [Hlt|Hz]; [rewrite Z.mod_small by lia; reflexivity | contradiction].
Qed.

Lemma delay_drops_whole_seconds_witness :
  micros (delay 1500) = 500000 /\ micros (delay 1500) <> 1000 * 1500.
Proof.
  destruct (delay_drops_whole_seconds 1500) as [H _]; [lia|].
  split; [exact H | rewrite H; discriminate].
Defined.

Lemma int_of_Some (z : Z) : - 2 ^ 31 <= z < 2 ^ 31 -> int_of z = Some z.
Proof.
  intros H. unfold int_of.
  destruct (Z.leb_spec (- 2 ^ 31) z); [|lia]. destruct (Z.ltb_spec z (2 ^ 31)); [|lia].
  reflexivity.
Qed.

Lemma digitalWriteByte_wired (value start : Z) :
  0 <= start <= 23 ->
  digitalWriteByte value start (start + 7)
  = Some [IoWrite GPIO_CLR (Z.shiftl (255 - value mod 256) start);
          IoWrite GPIO_SET (Z.shiftl (value mod 256) start)].
Proof.
  intros Hs. unfold digitalWriteByte.
  replace (start + 7 - start) with 7 by ring.
  rewrite int_of_Some by lia. cbn [mbind option_bind Z.eqb Pos.eqb negb].
  replace (start + 7 + 1 - start) with 8 by ring.
  change (Z.to_nat 8) with 8%nat.
  rewrite write_byte_loop_8 by lia. cbn [mbind option_bind].
  rewrite !Z.shiftl_mul_pow2 by lia. reflexivity.
Qed.

(** X12: digitalWriteByte puts a byte on eight pins in a row.  A range
    whose width pinEnd - pinStart is an int other than 7 is refused with
    a message and no register is written.  For pins
    pinStart..pinStart+7 within 0..30 the low byte of the value, shifted
    to pinStart, is written to GPIO_SET and its complement within the
    byte to GPIO_CLR, before it: no pin is both set and cleared, and the
    two masks together are the eight pins. *)
Theorem digitalWriteByte_masks (value pinStart pinEnd : Z) :
  (- 2 ^ 31 <= pinEnd - pinStart < 2 ^ 31 -> pinEnd - pinStart <> 7 ->
   digitalWriteByte value pinStart pinEnd = Some [IoPrintf "Must be 8 pins 0-7"]) /\
  (0 <= pinStart <= 23 -> pinEnd = pinStart + 7 ->
   digitalWriteByte value pinStart pinEnd
   = Some [IoWrite GPIO_CLR (Z.shiftl (255 - value mod 256) pinStart);
           IoWrite GPIO_SET (Z.shiftl (value mod 256) pinStart)] /\
   Z.land (Z.shiftl (value mod 256) pinStart)
          (Z.shiftl (255 - value mod 256) pinStart) = 0 /\
   Z.lor (Z.shiftl (value mod 256) pinStart)
         (Z.shiftl (255 - value mod 256) pinStart) = Z.shiftl 255 pinStart).
Proof.
  split.
  - intros Hint H. unfold digitalWriteByte.
    rewrite int_of_Some by exact Hint. cbn [mbind option_bind].
    destruct (Z.eqb_spec (pinEnd - pinStart) 7); [lia|]. reflexivity.
  - intros Hs ->.
    assert (Hb : 0 <= value mod 256 < 256) by (apply Z.mod_pos_bound; lia).
    split; [apply digitalWriteByte_wired, Hs|]. split.
    + rewrite <- Z.shiftl_land, land_complement_byte by lia. apply Z.shiftl_0_l.
    + rewrite <- Z.shiftl_lor. f_equal.
      rewrite <- Z.lxor_lor by (apply land_complement_byte; lia).
      rewrite <- Z.add_nocarry_lxor by (apply land_complement_byte; lia). ring.
Qed.

Lemma digitalWriteByte_masks_witness :
  digitalWriteByte 7 3 9 = Some [IoPrintf "Must be 8 pins 0-7"] /\
  digitalWriteByte 165 3 10 = Some [IoWrite GPIO_CLR 720; IoWrite GPIO_SET 1320].
Proof.
  split.
  - apply (digitalWriteByte_masks 7 3 9); lia.
  - apply (digitalWriteByte_masks 165 3 10); lia.
Defined.

(** * The text cursor of the display *)

Lemma digitalWrite_HIGH (pin : Z) :
  0 <= pin <= 30 -> digitalWrite pin HIGH = Some [IoWrite GPIO_SET (2 ^ pin)].
Proof.
  intros Hp. unfold digitalWrite. cbn [HIGH LOW Z.eqb].
  assert (2 ^ pin < 2 ^ 31) by (apply Z.pow_lt_mono_r; lia).
  assert (0 < 2 ^ pin) by (apply Z.pow_pos_nonneg; lia).
  rewrite shl_Some by lia. cbn [mbind option_bind].
  rewrite Z.mul_1_l, to_uint_small by lia. reflexivity.
Qed.

Lemma digitalWrite_LOW (pin : Z) :
  0 <= pin <= 30 -> digitalWrite pin LOW = Some [IoWrite GPIO_CLR (2 ^ pin)].
Proof.
  intros Hp. unfold digitalWrite. cbn [HIGH LOW Z.eqb].
  assert (2 ^ pin < 2 ^ 31) by (apply Z.pow_lt_mono_r; lia).
  assert (0 < 2 ^ pin) by (apply Z.pow_pos_nonneg; lia).
  rewrite shl_Some by lia. cbn [mbind option_bind].
  rewrite Z.mul_1_l, to_uint_small by lia. reflexivity.
Qed.

Lemma sendData_wired (lcd : LCD128) (data : Z) :
  lcd_wired lcd ->
  sendData lcd data
  = Some [IoWrite GPIO_CLR (Z.shiftl (255 - data mod 256) (DB0 lcd));
          IoWrite GPIO_SET (Z.shiftl (data mod 256) (DB0 lcd));
          IoWrite GPIO_SET (2 ^ E lcd); IoUsleep 1;
          IoWrite GPIO_CLR (2 ^ E lcd); IoUsleep 5;
          IoUsleep 2000].
Proof.
  intros (Hdb & H7 & He & Hrs). unfold sendData, pulseEnable.
  rewrite H7, digitalWriteByte_wired by lia. cbn [mbind option_bind].
  rewrite digitalWrite_HIGH, digitalWrite_LOW by lia. reflexivity.
Qed.

(** X13: one transfer to the display.  With the data lines on eight
    pins in a row, sendData clears and sets exactly the pins that spell
    the low byte of the data, then raises the enable pin, waits a
    microsecond, lowers it, waits five, and then two milliseconds. *)
Theorem sendData_bus_cycle (lcd : LCD128) (data : Z) :
  lcd_wired lcd ->
  sendData lcd data
  = Some [IoWrite GPIO_CLR (Z.shiftl (255 - data mod 256) (DB0 lcd));
          IoWrite GPIO_SET (Z.shiftl (data mod 256) (DB0 lcd));
          IoWrite GPIO_SET (2 ^ E lcd); IoUsleep 1;
          IoWrite GPIO_CLR (2 ^ E lcd); IoUsleep 5;
          IoUsleep 2000].
Proof. apply sendData_wired. Qed.

Lemma sendData_bus_cycle_witness :
  sendData lcd20x4 65
  = Some [IoWrite GPIO_CLR 194560; IoWrite GPIO_SET 66560;
          IoWrite GPIO_SET 16; IoUsleep 1; IoWrite GPIO_CLR 16; IoUsleep 5;
          IoUsleep 2000].
Proof.
  apply (sendData_bus_cycle lcd20x4 65). unfold lcd_wired. cbn. lia.
Defined.

Lemma sendInstruction_wired (lcd : LCD128) (ins : Z) :
  lcd_wired lcd -> exists out, sendInstruction lcd ins = Some out /\ out <> [].
Proof.
  intros Hw. pose proof (sendData_wired lcd ins Hw) as Hd.
  destruct Hw as (Hdb & H7 & He & Hrs). unfold sendInstruction.
  rewrite digitalWrite_LOW, digitalWrite_HIGH, Hd by lia.
  eexists. split; [reflexivity|]. discriminate.
Qed.

Lemma rowsOffset_byte (y off : Z) :
  rowsOffset !! Z.to_nat y = Some off -> 0 <= off < 256.
Proof.
  unfold rowsOffset.
  destruct (Z.to_nat y) as [|[|[|[|n]]]]; cbn; intros H; try discriminate;
    injection H as <-; lia.
Qed.

Lemma lor_byte (a b : Z) : 0 <= a < 256 -> 0 <= b < 256 -> 0 <= Z.lor a b < 256.
Proof.
  intros Ha Hb. split; [apply Z.lor_nonneg; lia|].
  destruct (Z.eq_dec (Z.lor a b) 0) as [->|Hn]; [lia|].
  change 256 with (2 ^ 8). apply Z.log2_lt_pow2; [pose proof (Z.lor_nonneg a b); lia|].
  rewrite Z.log2_lor by lia.
  apply Z.max_lub_lt.
  - destruct (Z.eq_dec a 0) as [->|]; [cbn; lia|]. apply Z.log2_lt_pow2; lia.
  - destruct (Z.eq_dec b 0) as [->|]; [cbn; lia|]. apply Z.log2_lt_pow2; lia.
Qed.

Lemma lcdTextPosition_moves (ddram : Z) (lcd : LCD128) (x y : Z) :
  lcd_wired lcd -> 0 <= ddram < 256 -> cols lcd < 2 ^ 30 ->
  0 <= x <= cols lcd -> 0 <= y <= rows lcd -> y <= 3 ->
  exists out, lcdTextPosition ddram lcd x y = Some (out, set_cy y (set_cx x lcd)) /\
              out <> [].
Proof.
  intros Hw Hd Hc Hx Hy Hy3. unfold lcdTextPosition.
  destruct (Z.gtb_spec x (cols lcd)); [lia|]. destruct (Z.ltb_spec x 0); [lia|].
  destruct (Z.gtb_spec y (rows lcd)); [lia|]. destruct (Z.ltb_spec y 0); [lia|].
  cbn [orb].
  destruct (rowsOffset !! Z.to_nat y) as [off|] eqn:Hoff.
  - pose proof (rowsOffset_byte y off Hoff) as Hb.
    pose proof (lor_byte ddram off Hd Hb) as Hl.
    cbn [mbind option_bind]. rewrite int_of_Some by lia. cbn [mbind option_bind].
    destruct (sendInstruction_wired lcd (x + Z.lor ddram off) Hw) as (out & -> & Hne).
    exists out. split; [reflexivity | exact Hne].
  - apply lookup_ge_None in Hoff. cbn in Hoff. lia.
Qed.



Lemma lcdPutChar_inside (ddram : Z) (lcd : LCD128) (c : Z) :
  lcd_wired lcd -> 0 <= ddram < 256 -> cursor_inside lcd ->
  exists out,
    lcdPutChar ddram lcd c
    = Some (out,
            set_cy (if cx lcd + 1 =? cols lcd then (cy lcd + 1) mod rows lcd else cy lcd)
                   (set_cx ((cx lcd + 1) mod cols lcd) lcd)).
Proof.
  intros Hw Hd (Hc & Hr & Hx & Hy). unfold lcdPutChar.
  rewrite (sendData_wired lcd (c mod 256) Hw). cbn [mbind option_bind].
  rewrite int_of_Some by lia. cbn [mbind option_bind].
  destruct lcd as [rs e db0 db7 co ro x y]. cbn in *.
  destruct (Z.eqb_spec (x + 1) co) as [Heq|Hne].
  - rewrite int_of_Some by lia. cbn [mbind option_bind].
    rewrite Heq, Z_mod_same_full.
    destruct (Z.eqb_spec (y + 1) ro) as [Hyr|Hyr]; unfold set_cx, set_cy; cbn.
    + rewrite Hyr, Z_mod_same_full.
      destruct (lcdTextPosition_moves ddram (mkLCD128 rs e db0 db7 co ro 0 0) 0 0)
        as (out & Ho & _); cbn; try lia; [exact Hw|].
      unfold set_cx, set_cy in Ho; cbn in Ho.
      rewrite Ho. cbn. eexists. reflexivity.
    + rewrite (Z.mod_small (y + 1)) by lia.
      destruct (lcdTextPosition_moves ddram (mkLCD128 rs e db0 db7 co ro 0 (y + 1)) 0 (y + 1))
        as (out & Ho & _); cbn; try lia; [exact Hw|].
      unfold set_cx, set_cy in Ho; cbn in Ho.
      rewrite Ho. cbn. eexists. reflexivity.
  - rewrite (Z.mod_small (x + 1)) by lia. eexists. reflexivity.
Qed.

Lemma advance_index (co ro x y : Z) :
  0 < co -> 0 < ro -> 0 <= x < co -> 0 <= y < ro ->
  (if x + 1 =? co then (y + 1) mod ro else y) * co + (x + 1) mod co
  = (y * co + x + 1) mod (co * ro).
Proof.
  intros Hc Hr Hx Hy.
  destruct (Z.eqb_spec (x + 1) co) as [Heq|Hne].
  - rewrite Heq, Z_mod_same_full.
    destruct (Z.eq_dec (y + 1) ro) as [Hyr|Hyr].
    + rewrite Hyr, Z_mod_same_full.
      replace (y * co + x + 1) with (co * ro) by nia.
      rewrite Z_mod_same_full. ring.
    + rewrite (Z.mod_small (y + 1)) by lia.
      rewrite Z.mod_small by nia. nia.
  - rewrite (Z.mod_small (x + 1)) by lia.
    rewrite Z.mod_small by nia. ring.
Qed.

(** X15: lcdPutChar moves a cursor that is on the panel to the next
    cell: one column on, from the last column to the first of the next
    row, and from the last cell to the first.  The cursor stays on the
    panel and the pins and the size of the panel are unchanged. *)
Theorem lcdPutChar_advances (ddram : Z) (lcd : LCD128) (c : Z) :
  lcd_wired lcd -> 0 <= ddram < 256 -> cursor_inside lcd ->
  exists out lcd',
    lcdPutChar ddram lcd c = Some (out, lcd') /\
    same_panel lcd lcd' /\ cursor_inside lcd' /\
    cursor_index lcd' = (cursor_index lcd + 1) mod (cols lcd * rows lcd).
Proof.
  intros Hw Hd Hin.
  destruct (lcdPutChar_inside ddram lcd c Hw Hd Hin) as (out & Ho).
  destruct Hin as (Hc & Hr & Hx & Hy).
  eexists _, _. split; [exact Ho|].
  destruct lcd as [rs e db0 db7 co ro x y]. unfold same_panel, cursor_inside, cursor_index.
  cbn in *. split; [repeat split|]. split.
  - repeat split; try lia; try (apply Z.mod_pos_bound; lia);
      destruct (x + 1 =? co); try lia; apply Z.mod_pos_bound; lia.
  - rewrite advance_index by lia. f_equal. 
Qed.

Lemma lcdPutChar_advances_witness :
  exists out lcd',
    lcdPutChar 128 (set_cy 3 (set_cx 19 lcd20x4)) 65 = Some (out, lcd') /\
    cursor_index lcd' = 0.
Proof.
  destruct (lcdPutChar_advances 128 (set_cy 3 (set_cx 19 lcd20x4)) 65)
    as (out & lcd' & Ho & _ & _ & Hi).
  - unfold lcd_wired. cbn. lia.
  - lia.
  - unfold cursor_inside. cbn. lia.
  - exists out, lcd'. split; [exact Ho | exact Hi].
Defined.

Lemma same_panel_wired (lcd lcd' : LCD128) :
  same_panel lcd lcd' -> lcd_wired lcd -> lcd_wired lcd'.
Proof.
  unfold same_panel, lcd_wired. intros (-> & -> & -> & -> & _) H. exact H.
Qed.

Lemma lcdPuts_inside (ddram : Z) (string : list Z) :
  0 <= ddram < 256 -> Forall (fun c => c <> 0) string ->
  forall lcd, lcd_wired lcd -> cursor_inside lcd ->
  exists out lcd',
    lcdPuts ddram lcd string = Some (out, lcd') /\
    same_panel lcd lcd' /\ cursor_inside lcd' /\
    cursor_index lcd' =
    (cursor_index lcd + Z.of_nat (length string)) mod (cols lcd * rows lcd).
Proof.
  intros Hd Hs. induction Hs as [|c string Hc Hs IH]; intros lcd Hw Hin.
  - exists [], lcd. split; [reflexivity|]. split; [repeat split|]. split; [exact Hin|].
    cbn [length Z.of_nat]. rewrite Z.add_0_r. symmetry. apply Z.mod_small.
    destruct Hin as (Hco & Hro & Hx & Hy). unfold cursor_index. nia.
  - destruct (lcdPutChar_inside ddram lcd c Hw Hd Hin) as (out1 & Ho1).
    set (lcd1 := set_cy (if cx lcd + 1 =? cols lcd then (cy lcd + 1) mod rows lcd else cy lcd)
                        (set_cx ((cx lcd + 1) mod cols lcd) lcd)) in *.
    assert (Hp1 : same_panel lcd lcd1) by (destruct lcd; repeat split).
    assert (Hin1 : cursor_inside lcd1).
    { destruct Hin as (Hco & Hro & Hx & Hy). destruct lcd as [rs e db0 db7 co ro x y].
      unfold cursor_inside, lcd1. cbn in *.
      repeat split; try lia; try (apply Z.mod_pos_bound; lia);
        destruct (x + 1 =? co); try lia; apply Z.mod_pos_bound; lia. }
    assert (Hidx1 : cursor_index lcd1 = (cursor_index lcd + 1) mod (cols lcd * rows lcd)).
    { destruct Hin as (Hco & Hro & Hx & Hy). destruct lcd as [rs e db0 db7 co ro x y].
      unfold cursor_index, lcd1. cbn in *. rewrite advance_index by lia. f_equal. }
    destruct (IH lcd1 (same_panel_wired lcd lcd1 Hp1 Hw) Hin1)
      as (out2 & lcd2 & Ho2 & Hp2 & Hin2 & Hidx2).
    exists (out1 ++ out2), lcd2. split; [|split; [|split]].
    + cbn [lcdPuts]. destruct (Z.eqb_spec c 0); [contradiction|].
      rewrite Ho1. cbn [mbind option_bind]. rewrite Ho2. reflexivity.
    + destruct Hp1 as (A1 & A2 & A3 & A4 & A5 & A6), Hp2 as (B1 & B2 & B3 & B4 & B5 & B6).
      unfold same_panel. repeat split; congruence.
    + exact Hin2.
    + rewrite Hidx2, Hidx1.
      destruct Hp1 as (_ & _ & _ & _ & -> & ->).
      rewrite Z.add_mod_idemp_l by (destruct Hin as (? & ? & _); nia).
      f_equal. cbn [length]. lia.
Qed.

(** X16: lcdPuts writes a string cell after cell.  From a cursor on the
    panel, a string of n characters leaves the cursor n cells further
    along the rows, counted round the panel, and still on the panel. *)
Theorem lcdPuts_advances_cursor (ddram : Z) (string : list Z) (lcd : LCD128) :
  0 <= ddram < 256 -> Forall (fun c => c <> 0) string ->
  lcd_wired lcd -> cursor_inside lcd ->
  exists out lcd',
    lcdPuts ddram lcd string = Some (out, lcd') /\
    same_panel lcd lcd' /\ cursor_inside lcd' /\
    cursor_index lcd' =
    (cursor_index lcd + Z.of_nat (length string)) mod (cols lcd * rows lcd).
Proof. intros Hd Hs Hw Hin. apply lcdPuts_inside; assumption. Qed.

Lemma lcdPuts_advances_cursor_witness :
  exists out lcd',
    lcdPuts 128 (set_cx 19 lcd20x4) [72; 105] = Some (out, lcd') /\
    cursor_index lcd' = 21.
Proof.
  destruct (lcdPuts_advances_cursor 128 [72; 105] (set_cx 19 lcd20x4))
    as (out & lcd' & Ho & _ & _ & Hi).
  - lia.
  - repeat constructor; lia.
  - unfold lcd_wired. cbn. lia.
  - unfold cursor_inside. cbn. lia.
  - exists out, lcd'. split; [exact Ho | exact Hi].
Defined.

Lemma lcdPutChar_beyond (ddram : Z) (lcd : LCD128) (c : Z) :
  lcd_wired lcd -> cols lcd <= cx lcd -> cx lcd + 1 < 2 ^ 31 -> - 2 ^ 31 <= cx lcd ->
  exists out, lcdPutChar ddram lcd c = Some (out, set_cx (cx lcd + 1) lcd).
Proof.
  intros Hw Hc Hmax Hmin. unfold lcdPutChar.
  rewrite (sendData_wired lcd (c mod 256) Hw). cbn [mbind option_bind].
  rewrite int_of_Some by lia. cbn [mbind option_bind].
  destruct lcd as [rs e db0 db7 co ro x y]. cbn in *.
  destruct (Z.eqb_spec (x + 1) co); [lia|]. eexists. reflexivity.
Qed.

Lemma lcdPuts_beyond (ddram : Z) (string : list Z) :
  Forall (fun c => c <> 0) string ->
  forall lcd, lcd_wired lcd -> 0 <= cols lcd <= cx lcd ->
              cx lcd + Z.of_nat (length string) < 2 ^ 31 ->
  exists out,
    lcdPuts ddram lcd string
    = Some (out, set_cx (cx lcd + Z.of_nat (length string)) lcd).
Proof.
  intros Hs. induction Hs as [|c string Hc Hs IH]; intros lcd Hw Hx Hmax.
  - exists []. cbn [lcdPuts length Z.of_nat]. rewrite Z.add_0_r.
    destruct lcd; reflexivity.
  - replace (Z.of_nat (length (c :: string))) with (1 + Z.of_nat (length string)) in *
      by (cbn [length]; lia).
    assert (H1 : cols lcd <= cx lcd) by lia.
    assert (H2 : cx lcd + 1 < 2 ^ 31) by lia.
    assert (H3 : - 2 ^ 31 <= cx lcd) by lia.
    destruct (lcdPutChar_beyond ddram lcd c Hw H1 H2 H3) as (out1 & Ho1).
    assert (Hw1 : lcd_wired (set_cx (cx lcd + 1) lcd)) by (destruct lcd; exact Hw).
    assert (Hx1 : 0 <= cols (set_cx (cx lcd + 1) lcd) <= cx (set_cx (cx lcd + 1) lcd))
      by (destruct lcd; cbn in *; lia).
    assert (Hm1 : cx (set_cx (cx lcd + 1) lcd) + Z.of_nat (length string) < 2 ^ 31)
      by (destruct lcd; cbn in *; lia).
    destruct (IH (set_cx (cx lcd + 1) lcd) Hw1 Hx1 Hm1) as (out2 & Ho2).
    exists (out1 ++ out2). cbn [lcdPuts]. destruct (Z.eqb_spec c 0); [contradiction|].
    rewrite Ho1. cbn [mbind option_bind]. rewrite Ho2. cbn [mbind option_bind].
    destruct lcd. unfold set_cx. cbn [cx cy RS E DB0 DB7 cols rows].
    rewrite Z.add_assoc. reflexivity.
Qed.

(** X17: a cursor put at column cols, which lcdTextPosition accepts, is
    never brought back.  lcdPutChar wraps only when the column becomes
    equal to cols, so every character written after such a positioning
    moves the column one further beyond the panel: after n characters
    it is cols + n, in the same row. *)
Theorem cursor_at_cols_never_wraps (ddram : Z) (lcd : LCD128) (y : Z) (string : list Z) :
  lcd_wired lcd -> 0 <= ddram < 256 -> 0 <= cols lcd < 2 ^ 30 ->
  0 <= y <= rows lcd -> y <= 3 ->
  Forall (fun c => c <> 0) string -> Z.of_nat (length string) < 2 ^ 30 ->
  exists out lcd1 out',
    lcdTextPosition ddram lcd (cols lcd) y = Some (out, lcd1) /\
    cx lcd1 = cols lcd /\ cy lcd1 = y /\
    lcdPuts ddram lcd1 string
    = Some (out', set_cx (cols lcd + Z.of_nat (length string)) lcd1).
Proof.
  intros Hw Hd Hc Hy Hy3 Hs Hlen.
  destruct (lcdTextPosition_moves ddram lcd (cols lcd) y Hw Hd) as (out & Ho & _); try lia.
  set (lcd1 := set_cy y (set_cx (cols lcd) lcd)) in *.
  assert (Hw1 : lcd_wired lcd1) by (destruct lcd; exact Hw).
  assert (Hcx : cx lcd1 = cols lcd) by (destruct lcd; reflexivity).
  assert (Hco : cols lcd1 = cols lcd) by (destruct lcd; reflexivity).
  destruct (lcdPuts_beyond ddram string Hs lcd1 Hw1) as (out' & Ho'); try lia.
  exists out, lcd1, out'. split; [exact Ho|]. split; [exact Hcx|].
  split; [destruct lcd; reflexivity|]. rewrite Ho', Hcx. reflexivity.
Qed.

Lemma cursor_at_cols_never_wraps_witness :
  exists out lcd1 out',
    lcdTextPosition 128 lcd20x4 20 1 = Some (out, lcd1) /\
    lcdPuts 128 lcd1 [72; 105; 33] = Some (out', set_cx 23 lcd1).
Proof.
  destruct (cursor_at_cols_never_wraps 128 lcd20x4 1 [72; 105; 33])
    as (out & lcd1 & out' & Ho & _ & _ & Hp).
  - unfold lcd_wired. cbn. lia.
  - lia.
  - cbn. lia.
  - cbn. lia.
  - lia.
  - repeat constructor; lia.
  - cbn. lia.
  - exists out, lcd1, out'. split; [exact Ho | exact Hp].
Defined.
